(** * Asynchronous inference notebook: submit / poll / collect

    A shallow embedding of the request/poll/collect workflow of
    [Text-Summarization-HuggingFace-Async-Inference.ipynb]:

    - the locators built by the f-strings of the notebook
      ([S3OutputPath], [input_s3_location]);
    - the cell that uploads [data/input.json] to the input key;
    - the single-request cells ([invoke_endpoint_async], then
      [get_output], then the line that shows the summary);
    - [get_output], the polling loop ([while True] / [try] / [except]);
    - the two batch cells ([for i in range(1,10)] and
      [for i in range(1,1000)]), each followed by its collection loop.

    The calls into boto3, the SageMaker SDK, [time] and [print] are events
    of an interaction tree; the unbounded [while True] is [ITree.iter].
    An environment (a world type and one handler) gives the events their
    answers; [run] executes a tree against an environment for a bounded
    number of steps and records what was observed. *)

From Stdlib Require Import String Ascii ZArith List Lia Bool.
From stdpp Require Import base gmap strings pretty.
From ITree Require Import ITree Events.Exception.

Import ListNotations.
Local Open Scope string_scope.
Local Open Scope list_scope.

Set Implicit Arguments.

(* ------------------------------------------------------------------ *)
(** * Python values used by the notebook *)

Module Py.

(** Exceptions the external calls can raise.  [ClientError] is
    botocore's; [code] is [e.response['Error']['Code']].  Everything
    that is not a [ClientError] (connection errors, [KeyError], ...)
    is kept by its class name. *)
Inductive exn : Type :=
| ClientError (code message : string)
| OtherError (class_name message : string).

(** [s[1:]] on a Python string: everything after the first character;
    the empty string slices to itself. *)
Definition slice_from_1 (s : string) : string :=
  match s with
  | EmptyString => EmptyString
  | String _ rest => rest
  end.

(** [range(lo, hi)] with [hi - lo] elements when [lo <= hi], none
    otherwise. *)
Fixpoint range_from (lo : Z) (len : nat) : list Z :=
  match len with
  | O => []
  | S len' => lo :: range_from (lo + 1) len'
  end.

Definition range (lo hi : Z) : list Z := range_from lo (Z.to_nat (hi - lo)).

(** The six-field result of [urllib.parse.urlparse]. *)
Record ParseResult : Type := mkParseResult {
  scheme : string;
  netloc : string;
  path : string;
  params : string;
  query : string;
  fragment : string
}.

(** The newline character of ["\n"]. *)
Definition nl : string := String "010"%char EmptyString.

End Py.

Import Py.

(* ------------------------------------------------------------------ *)
(** * External calls as events *)

(** The response dictionary of [invoke_endpoint_async], reduced to the
    keys the service documents for it. *)
Record InvokeResponse : Type := mkInvokeResponse {
  OutputLocation : string;
  InferenceId : string
}.

(** One constructor per external call made by the modelled cells.  A call
    that can raise answers with [inl e]; the program decides what to do
    with [e] (catch it or raise it again).  [OpenFile] is the builtin
    [open] used for reading: it answers with what the file holds, which
    is what [upload_fileobj] then reads from the file object.  [Time] is [time.time()]: the
    notebook stores its reading in [start] and never uses it, so the
    reading is kept as a whole number of clock units. *)
Variant awsE : Type -> Type :=
| InvokeEndpointAsync (EndpointName InputLocation ContentType : string)
  : awsE (exn + InvokeResponse)
| ReadS3File (bucket key_prefix : string) : awsE (exn + string)
| UploadFileobj (bucket key : string) (body : string) : awsE (exn + unit)
| OpenFile (file mode : string) : awsE (exn + string)
| Sleep (secs : Z) : awsE unit
| Print (line : string) : awsE unit
| Time : awsE Z.

(** Programs: external calls plus Python's [raise]. *)
Definition pyE : Type -> Type := exceptE exn +' awsE.

Definition py (R : Type) : Type := itree pyE R.

Notation "x <- t ;;; k" := (ITree.bind t (fun x => k))
  (at level 100, t at next level, right associativity, only parsing).
Notation "t ;;; k" := (ITree.bind t (fun _ => k))
  (at level 100, right associativity, only parsing).

Definition call {T : Type} (e : awsE T) : py T :=
  Vis (inr1 e) (fun x => Ret x).

Definition raise {T : Type} (e : exn) : py T :=
  Vis (inl1 (Throw e)) (fun v : void => match v with end).

(** A call outside any [try]: an exception it raises propagates. *)
Definition call_or_raise {T : Type} (e : awsE (exn + T)) : py T :=
  r <- call e ;;;
  match r with
  | inl ex => raise ex
  | inr v => Ret v
  end.

(** [for x in xs: s = body x s], the loop variables threaded as [s]. *)
Fixpoint for_each {A V : Type} (xs : list A) (body : A -> V -> py V) (s : V)
  : py V :=
  match xs with
  | [] => Ret s
  | x :: rest => s' <- body x s ;;; for_each rest body s'
  end.

(** [e.response['Error']['Code'] == 'NoSuchKey'] under
    [except ClientError as e]. *)
Definition is_no_such_key (e : exn) : bool :=
  match e with
  | ClientError code _ => String.eqb code "NoSuchKey"
  | OtherError _ _ => false
  end.

(* ------------------------------------------------------------------ *)
(** * The notebook *)

Section Notebook.

(** [sm_session.default_bucket()] and the time-stamped endpoint name
    are fixed once per notebook session. *)
Variable s3_bucket : string.
Variable endpoint_name : string.

(** [urllib.parse.urlparse] is Python's; the notebook only reads
    [netloc] and [path] of its result. *)
Variable urlparse : string -> ParseResult.

Definition bucket_prefix : string := "async-inference-demo".

(** [f"s3://{s3_bucket}/{bucket_prefix}/output"] *)
Definition S3OutputPath : string :=
  "s3://" ++ s3_bucket ++ "/" ++ bucket_prefix ++ "/output".

(** [f"{bucket_prefix}/input/input.json"] *)
Definition input_s3_key : string := bucket_prefix ++ "/input/input.json".

(** [f"s3://{s3_bucket}/{bucket_prefix}/input/input.json"] *)
Definition input_s3_location : string :=
  "s3://" ++ s3_bucket ++ "/" ++ bucket_prefix ++ "/input/input.json".

(** The upload cell: [data/input.json] is opened for reading and what
    it holds is written to the input key; leaving the [with] block
    closes the file, which nothing observes. *)
Definition upload_input : py unit :=
  input_file <- call_or_raise (OpenFile "data/input.json" "rb") ;;;
  call_or_raise (UploadFileobj s3_bucket input_s3_key input_file) ;;;
  call (Print "Uploaded the input data to S3 bucket").

(** One pass through the body of [while True]: [inr content] is the
    [return], [inl tt] the [continue]. *)
Definition get_output_attempt (output_url : ParseResult) (_ : unit)
  : py (unit + string) :=
  r <- call (ReadS3File (netloc output_url) (slice_from_1 (path output_url))) ;;;
  match r with
  | inr content => Ret (inr content)
  | inl e =>
      if is_no_such_key e then
        call (Print "waiting for output...") ;;;
        call (Sleep 2) ;;;
        Ret (inl tt)
      else raise e
  end.

Definition get_output (output_location : string) : py string :=
  let output_url := urlparse output_location in
  ITree.iter (get_output_attempt output_url) tt.

(** The Request Submitter: the [invoke_endpoint_async] call of the
    single-request cell, with the [OutputLocation] of its response (the
    two [print] lines of that cell, which echo the response, are left
    out). *)
Definition invoke_once : py string :=
  response <- call_or_raise
    (InvokeEndpointAsync endpoint_name input_s3_location "application/json") ;;;
  Ret (OutputLocation response).

(** Variables a batch cell leaves behind: the record of pairs and the
    last content assigned to [output] (none when the collection loop
    never ran). *)
Record BatchVars : Type := mkBatchVars {
  inferences : list (string * string);
  output : option string
}.

Definition batch_header : string :=
  "\Async invocations for Pytorch serving default: " ++ nl.

Definition report_line (input_file output_location : string) : string :=
  "Input File: " ++ input_file ++ ", Output location: " ++ output_location.

(** Body of [for i in range(1, n)]: one submission, one entry
    appended. *)
Definition submit_step (_ : Z) (inferences : list (string * string))
  : py (list (string * string)) :=
  _start <- call Time ;;;
  response <- call_or_raise
    (InvokeEndpointAsync endpoint_name input_s3_location "application/json") ;;;
  let output_location := OutputLocation response in
  Ret (inferences ++ [(input_s3_location, output_location)]).

(** Body of [for input_file, output_location in inferences]. *)
Definition collect_step (entry : string * string) (_ : option string)
  : py (option string) :=
  let '(input_file, output_location) := entry in
  output <- get_output output_location ;;;
  call (Print (report_line input_file output_location)) ;;;
  Ret (Some output).

(** A batch cell, with the upper bound of its [range] as parameter:
    10 in the first cell, 1000 in the second. *)
Definition batch (n : Z) : py BatchVars :=
  inferences <- for_each (range 1 n) submit_step [] ;;;
  call (Print batch_header) ;;;
  output <- for_each inferences collect_step None ;;;
  Ret (mkBatchVars inferences output).

End Notebook.

(* ------------------------------------------------------------------ *)
(** * Running a program against an environment *)

(** What an observer of the external services sees: each call with the
    answer it got. *)
Inductive obs : Type :=
| ObsInvoke (EndpointName InputLocation ContentType : string)
    (r : exn + InvokeResponse)
| ObsRead (bucket key_prefix : string) (r : exn + string)
| ObsUpload (bucket key body : string) (r : exn + unit)
| ObsOpen (file mode : string) (r : exn + string)
| ObsSleep (secs : Z)
| ObsPrint (line : string)
| ObsTime (t : Z).

Definition observed {T : Type} (e : awsE T) : T -> obs :=
  match e in awsE T return T -> obs with
  | InvokeEndpointAsync ep i c => ObsInvoke ep i c
  | ReadS3File b k => ObsRead b k
  | UploadFileobj b k body => ObsUpload b k body
  | OpenFile file mode => ObsOpen file mode
  | Sleep secs => fun _ => ObsSleep secs
  | Print line => fun _ => ObsPrint line
  | Time => ObsTime
  end.

(** How a run ends: with the value of its last expression, or with an
    exception that nothing caught. *)
Inductive outcome (R : Type) : Type :=
| Returned (r : R)
| Raised (e : exn).

Arguments Returned {R} r.
Arguments Raised {R} e.

Section Semantics.

(** The environment: the state of everything outside the notebook and
    the answer it gives to each call. *)
Variable World : Type.
Variable handler : forall T : Type, awsE T -> World -> T * World.

(** A run, looked at after some number of steps: [status] is [None]
    while the program is still going; [trace] is what was observed so
    far, oldest first; [fuel_left] is the number of steps not used. *)
Record snapshot (R : Type) : Type := Snap {
  status : option (outcome R);
  world : World;
  trace : list obs;
  fuel_left : nat
}.

(** [after tr s]: the same snapshot, with [tr] observed first. *)
Definition after {R : Type} (tr : list obs) (s : snapshot R) : snapshot R :=
  Snap (status s) (world s) (tr ++ trace s) (fuel_left s).

(** [run fuel t w] executes [t] from world [w].  An external call and a
    silent step of a loop cost one unit of fuel each; returning and
    raising are free. *)
Fixpoint run {R : Type} (fuel : nat) (t : py R) (w : World) : snapshot R :=
  match observe t with
  | RetF r => Snap (Some (Returned r)) w [] fuel
  | TauF t' =>
      match fuel with
      | O => Snap None w [] O
      | S fuel' => run fuel' t' w
      end
  | VisF e k =>
      match e with
      | inl1 (Throw err) => Snap (Some (Raised err)) w [] fuel
      | inr1 ev =>
          match fuel with
          | O => Snap None w [] O
          | S fuel' =>
              let '(x, w') := handler ev w in
              after [observed ev x] (run fuel' (k x) w')
          end
      end
  end.

(** [t], started in [w], ends with [o], in world [w'], having shown
    [tr]. *)
Definition ends {R : Type} (t : py R) (w : World)
  (o : outcome R) (w' : World) (tr : list obs) : Prop :=
  exists fuel left, run fuel t w = Snap (Some o) w' tr left.

(** [t], started in [w], never ends. *)
Definition diverges {R : Type} (t : py R) (w : World) : Prop :=
  forall fuel, status (run fuel t w) = None.

(** The exception a snapshot has ended with, if any. *)
Definition failure {R : Type} (s : snapshot R) : option exn :=
  match status s with
  | Some (Raised e) => Some e
  | _ => None
  end.

(** How a snapshot of [t] becomes a snapshot of [t ;;; k]: when [t] has
    returned, the continuation runs on the fuel that is left; when [t]
    has raised or is still going, so has (or is) the whole. *)
Definition then_run {R U : Type} (k : R -> py U) (s : snapshot R)
  : snapshot U :=
  match status s with
  | Some (Returned r) => after (trace s) (run (fuel_left s) (k r) (world s))
  | Some (Raised e) => Snap (Some (Raised e)) (world s) (trace s) (fuel_left s)
  | None => Snap None (world s) (trace s) (fuel_left s)
  end.

(** ** Worlds met by the polling loop *)

Definition read_answer (bucket key : string) (w : World) : exn + string :=
  fst (handler (ReadS3File bucket key) w).

(** The read found nothing: it raised [ClientError] with code
    [NoSuchKey]. *)
Definition not_found_at (bucket key : string) (w : World) : bool :=
  match read_answer bucket key w with
  | inl e => is_no_such_key e
  | inr _ => false
  end.

(** The world after the [print] and the [time.sleep(2)] of a retry. *)
Definition wait_world (w : World) : World :=
  snd (handler (Sleep 2) (snd (handler (Print "waiting for output...") w))).

(** The world after one failed read and its wait. *)
Definition retry_world (bucket key : string) (w : World) : World :=
  wait_world (snd (handler (ReadS3File bucket key) w)).

Fixpoint after_retries (bucket key : string) (n : nat) (w : World) : World :=
  match n with
  | O => w
  | S n' => after_retries bucket key n' (retry_world bucket key w)
  end.

(** What [n] retries starting in [w] show. *)
Fixpoint waiting_trace (bucket key : string) (n : nat) (w : World) : list obs :=
  match n with
  | O => []
  | S n' =>
      [ObsRead bucket key (read_answer bucket key w);
       ObsPrint "waiting for output..."; ObsSleep 2]
      ++ waiting_trace bucket key n' (retry_world bucket key w)
  end.

(** ** Properties of every snapshot *)

(** [Inv err tr] holds at every step of [t]: of the trace shown so far,
    given the exception the run has raised, if any. *)
Definition always (Inv : option exn -> list obs -> Prop) {R : Type}
  (t : py R) : Prop :=
  forall fuel w, Inv (failure (run fuel t w)) (trace (run fuel t w)).

(** Every observation [t] ever shows satisfies [P]. *)
Definition only (P : obs -> Prop) {R : Type} (t : py R) : Prop :=
  always (fun _ tr => Forall P tr) t.

End Semantics.

Arguments Snap {World R} _ _ _ _.
Arguments status {World R} _.
Arguments world {World R} _.
Arguments trace {World R} _.
Arguments fuel_left {World R} _.
Arguments always World handler Inv {R} t.
Arguments only World handler P {R} t.

(* ------------------------------------------------------------------ *)
(** * Reading a trace *)

(** The error an observation carries when nothing recovers from it: a
    rejected submission or upload, a file that could not be opened, or a
    read that failed with anything but [NoSuchKey]. *)
Definition unrecovered (o : obs) : option exn :=
  match o with
  | ObsInvoke _ _ _ (inl e) => Some e
  | ObsUpload _ _ _ (inl e) => Some e
  | ObsOpen _ _ (inl e) => Some e
  | ObsRead _ _ (inl e) => if is_no_such_key e then None else Some e
  | _ => None
  end.

Definition is_read (o : obs) : bool :=
  match o with
  | ObsRead _ _ _ => true
  | _ => false
  end.

Definition is_invoke (o : obs) : bool :=
  match o with
  | ObsInvoke _ _ _ _ => true
  | _ => false
  end.

Definition is_write (o : obs) : bool :=
  match o with
  | ObsUpload _ _ _ _ => true
  | _ => false
  end.

(** The contents the reads of a trace brought back, oldest first. *)
Fixpoint retrieved (tr : list obs) : list string :=
  match tr with
  | [] => []
  | ObsRead _ _ (inr content) :: rest => content :: retrieved rest
  | _ :: rest => retrieved rest
  end.

(** The submissions of a trace, oldest first, accepted or not. *)
Definition submissions (tr : list obs) : list obs := List.filter is_invoke tr.

(** A trace with no unrecovered error in it. *)
Definition clean (tr : list obs) : Prop :=
  Forall (fun o => unrecovered o = None) tr.

(** A trace is guarded with respect to how the run stands: a run that
    has raised [e] shows a clean trace closed by the observation that
    carried [e]; any other run shows a clean trace. *)
Definition guarded (err : option exn) (tr : list obs) : Prop :=
  match err with
  | Some e => exists tr0 o, tr = tr0 ++ [o] /\ clean tr0 /\ unrecovered o = Some e
  | None => clean tr
  end.

(** What a retry shows: the failed read, the message, the sleep. *)
Definition retry_block (bucket key : string) (e : exn) : list obs :=
  [ObsRead bucket key (inl e); ObsPrint "waiting for output..."; ObsSleep 2].

(** What a poll of (bucket, key) that returned [content] shows: retries
    on [NoSuchKey], then the read that found the object. *)
Inductive poll_trace (bucket key content : string) : list obs -> Prop :=
| poll_found : poll_trace bucket key content [ObsRead bucket key (inr content)]
| poll_waited (e : exn) (tr : list obs) :
    is_no_such_key e = true ->
    poll_trace bucket key content tr ->
    poll_trace bucket key content (retry_block bucket key e ++ tr).

(** [loc] lies under the directory [dir]. *)
Definition under (dir loc : string) : Prop :=
  exists rest : string, loc = (dir ++ rest)%string.

(** The only observations a poll of (bucket, key) may show. *)
Definition poll_obs (bucket key : string) (o : obs) : Prop :=
  match o with
  | ObsRead b k _ => b = bucket /\ k = key
  | ObsPrint line => line = "waiting for output..."
  | ObsSleep secs => secs = 2%Z
  | _ => False
  end.

(** A mapping from input reference to content, filled in the order of
    the record, a later entry replacing an earlier one with the same
    key: what [results[input_file] = output] in the collection loop
    would build. *)
Definition result_mapping (record : list (string * string))
  (contents : list string) : gmap string string :=
  fold_left (fun m '((input_file, _), content) => <[input_file := content]> m)
    (combine record contents) ∅.

(** "After the batch completes the caller holds each retrieved
    content": whatever session the cell ran in, the contents its polls
    brought back can be read off the variables it leaves behind. *)
Definition holds_every_content {World : Type}
  (handler : forall T : Type, awsE T -> World -> T * World)
  (cell : py BatchVars) : Prop :=
  exists recover : BatchVars -> list string,
    forall fuel w vars,
      status (run handler fuel cell w) = Some (Returned vars) ->
      recover vars = retrieved (trace (run handler fuel cell w)).

Section Shapes.

Variable s3_bucket : string.
Variable endpoint_name : string.
Variable urlparse : string -> ParseResult.

(** The entry appended for an accepted submission. *)
Definition entry_of (item : Z * InvokeResponse) : string * string :=
  (input_s3_location s3_bucket, OutputLocation (snd item)).

(** What the submission loop shows when every submission is accepted:
    for each, the clock reading and the call with its response. *)
Definition submit_trace (items : list (Z * InvokeResponse)) : list obs :=
  flat_map (fun item =>
    [ObsTime (fst item);
     ObsInvoke endpoint_name (input_s3_location s3_bucket) "application/json"
       (inr (snd item))]) items.

(** What the collection loop shows when every poll returns: for each
    entry of the record, in order, its poll and its report line. *)
Inductive collect_trace
  : list (string * string) -> list string -> list obs -> Prop :=
| collect_nil : collect_trace [] [] []
| collect_cons input_file output_location content trp rest contents tr :
    poll_trace (netloc (urlparse output_location))
      (slice_from_1 (path (urlparse output_location))) content trp ->
    collect_trace rest contents tr ->
    collect_trace ((input_file, output_location) :: rest) (content :: contents)
      (trp ++ ObsPrint (report_line input_file output_location) :: tr).

End Shapes.

(* ------------------------------------------------------------------ *)
(** * A reference environment: object storage and the inference service *)

Module Cloud.

(** A request the inference service has accepted and not yet finished:
    at time [due] it writes [payload] to [target]. *)
Record Job : Type := mkJob {
  due : Z;
  target : string * string;
  payload : string
}.

(** [objects] is the object storage, keyed by (bucket, key); [plan] is
    what the service will do with the coming invocations, in order:
    reject with an exception, or accept and finish after the given
    processing time with the given summary; [served] counts the accepted
    invocations and names their outputs; reads of a location in [denied]
    are refused; [disk] holds the files of the machine the notebook runs
    on, by path. *)
Record World : Type := mkWorld {
  objects : gmap (string * string) string;
  clock : Z;
  jobs : list Job;
  plan : list (exn + Z * string);
  served : nat;
  denied : gset (string * string);
  stdout : list string;
  disk : gmap string string
}.

Definition write (loc : string * string) (body : string) (w : World) : World :=
  mkWorld (<[loc := body]> (objects w)) (clock w) (jobs w) (plan w)
    (served w) (denied w) (stdout w) (disk w).

(** The service finishes every job that is due. *)
Definition settle (w : World) : World :=
  let ready := List.filter (fun j => (due j <=? clock w)%Z) (jobs w) in
  let waiting := List.filter (fun j => negb (due j <=? clock w)%Z) (jobs w) in
  mkWorld (fold_left (fun m j => <[target j := payload j]> m) ready (objects w))
    (clock w) waiting (plan w) (served w) (denied w) (stdout w) (disk w).

Definition tick (secs : Z) (w : World) : World :=
  settle (mkWorld (objects w) (clock w + secs) (jobs w) (plan w)
            (served w) (denied w) (stdout w) (disk w)).

Definition say (line : string) (w : World) : World :=
  mkWorld (objects w) (clock w) (jobs w) (plan w) (served w) (denied w)
    (stdout w ++ [line]) (disk w).

Definition no_such_key : exn :=
  ClientError "NoSuchKey" "The specified key does not exist.".

Definition access_denied : exn := ClientError "AccessDenied" "Access Denied".

Definition unreachable : exn :=
  OtherError "EndpointConnectionError" "Could not connect to the endpoint URL".

Definition file_not_found (file : string) : exn :=
  OtherError "FileNotFoundError"
    ("[Errno 2] No such file or directory: '" ++ file ++ "'").

(** [open(file, mode)] for reading: what the file holds, or
    [FileNotFoundError]. *)
Definition open (file : string) (w : World) : (exn + string) * World :=
  match disk w !! file with
  | Some body => (inr body, w)
  | None => (inl (file_not_found file), w)
  end.

Section Service.

(** The bucket the endpoint configuration names in [S3OutputPath]. *)
Variable s3_bucket : string.

Definition output_key (token : nat) : string :=
  bucket_prefix ++ "/output/" ++ pretty token ++ ".out".

Definition output_location (token : nat) : string :=
  S3OutputPath s3_bucket ++ "/" ++ pretty token ++ ".out".

(** Modelled from the spec: the asynchronous inference service,
    [submit(target, input_reference, content_type) -> { output_reference }],
    which queues the request and processes it out-of-band, writing the
    result under the configured output path. *)
Definition invoke (w : World) : (exn + InvokeResponse) * World :=
  match plan w with
  | [] => (inl unreachable, w)
  | inl e :: rest =>
      (inl e, mkWorld (objects w) (clock w) (jobs w) rest (served w)
                (denied w) (stdout w) (disk w))
  | inr (processing, summary) :: rest =>
      let token := served w in
      let job := mkJob (clock w + processing) (s3_bucket, output_key token) summary in
      (inr (mkInvokeResponse (output_location token) (pretty token)),
       settle (mkWorld (objects w) (clock w) (jobs w ++ [job]) rest
                 (S token) (denied w) (stdout w) (disk w)))
  end.

(** Modelled from the spec: the object storage service,
    [get(location) -> bytes], raising a distinguishable "not found"
    condition when the object is absent.  A read changes nothing. *)
Definition read (bucket key : string) (w : World) : (exn + string) * World :=
  if bool_decide ((bucket, key) ∈ denied w) then (inl access_denied, w)
  else match objects w !! (bucket, key) with
       | Some body => (inr body, w)
       | None => (inl no_such_key, w)
       end.

Definition handler (T : Type) (e : awsE T) (w : World) : T * World :=
  match e in awsE T return T * World with
  | InvokeEndpointAsync _ _ _ => invoke w
  | ReadS3File bucket key => read bucket key w
  | UploadFileobj bucket key body => (inr tt, write (bucket, key) body w)
  | OpenFile file _ => open file w
  | Sleep secs => (tt, tick secs w)
  | Print line => (tt, say line w)
  | Time => (clock w, w)
  end.

End Service.

(** Nothing is stored at (bucket, key), nothing is denied there, and the
    service has no job left that could write. *)
Definition idle (bucket key : string) (w : World) : Prop :=
  objects w !! (bucket, key) = None /\
  jobs w = [] /\
  (bucket, key) ∉ denied w.

(** The world [n] waits of 2 later when the notebook does nothing in
    between: only the service acts. *)
Fixpoint left_alone (n : nat) (w : World) : World :=
  match n with
  | O => w
  | S n' => left_alone n' (tick 2 w)
  end.

(** The state of the storage and of the service: everything but what
    the notebook has printed. *)
Definition backend (w : World) : World :=
  mkWorld (objects w) (clock w) (jobs w) (plan w) (served w) (denied w) []
    (disk w).

(** A parser for locators of the shape [scheme://netloc/path] without
    query or fragment, standing for [urllib.parse.urlparse] on them. *)
Fixpoint split_at_slash (s : string) : string * string :=
  match s with
  | EmptyString => (EmptyString, EmptyString)
  | String c rest =>
      if Ascii.eqb c "/"%char then (EmptyString, s)
      else let '(host, p) := split_at_slash rest in (String c host, p)
  end.

Fixpoint split_scheme (s : string) : option (string * string) :=
  match s with
  | String ":" (String "/" (String "/" rest)) => Some (EmptyString, rest)
  | String c rest =>
      match split_scheme rest with
      | Some (sch, r) => Some (String c sch, r)
      | None => None
      end
  | EmptyString => None
  end.

Definition urlparse (url : string) : ParseResult :=
  match split_scheme url with
  | Some (sch, rest) =>
      let '(host, p) := split_at_slash rest in
      mkParseResult sch host p "" "" ""
  | None => mkParseResult "" "" url "" "" ""
  end.

End Cloud.

(* ------------------------------------------------------------------ *)
(** * Concrete sessions *)

Module Demo.

Definition s3_bucket : string := "sagemaker-demo".
Definition endpoint_name : string :=
  "async-summarization-inference-huggingface-2021-08-20-10-00-00".

Definition handler := Cloud.handler s3_bucket.

(** An empty account in which the service will treat the coming
    invocations as [plan] says. *)
Definition fresh (plan : list (exn + Z * string)) : Cloud.World :=
  Cloud.mkWorld ∅ 0 [] plan 0 ∅ [] ∅.

(** Ten invocations would be accepted; they do not finish in the order
    they are made. *)
Definition ten_accepted : list (exn + Z * string) :=
  [inr (6, "summary 0"); inr (1, "summary 1"); inr (3, "summary 2");
   inr (2, "summary 3"); inr (2, "summary 4"); inr (9, "summary 5");
   inr (1, "summary 6"); inr (4, "summary 7"); inr (5, "summary 8");
   inr (1, "summary 9")]%Z.

Definition throttled : exn := ClientError "ThrottlingException" "Rate exceeded".

(** The third invocation is rejected. *)
Definition third_rejected : list (exn + Z * string) :=
  [inr (6, "summary 0"); inr (1, "summary 1"); inl throttled]%Z.

(** The first batch cell, [for i in range(1,10)], in a session where
    ten invocations would be accepted. *)
Abbreviation first_cell :=
  (run handler 200 (batch s3_bucket endpoint_name Cloud.urlparse 10)
     (fresh ten_accepted)).

Definition first_cell_vars : BatchVars :=
  Eval vm_compute in
    match status first_cell with
    | Some (Returned vars) => vars
    | _ => mkBatchVars [] None
    end.

(** The same cell in a session where the third invocation is
    rejected. *)
Abbreviation rejected_cell :=
  (run handler 200 (batch s3_bucket endpoint_name Cloud.urlparse 10)
     (fresh third_rejected)).

Definition rejected_call : obs :=
  ObsInvoke endpoint_name (input_s3_location s3_bucket) "application/json"
    (inl throttled).

Definition before_rejection : list obs :=
  Eval vm_compute in removelast (trace rejected_cell).

(** The response to the first accepted invocation and where its output
    will be. *)
Definition first_response : InvokeResponse :=
  mkInvokeResponse (Cloud.output_location s3_bucket 0) "0".

Definition first_output : string :=
  Eval vm_compute in Cloud.output_location s3_bucket 0.

Abbreviation first_bucket := (netloc (Cloud.urlparse first_output)).

Abbreviation first_key := (slice_from_1 (path (Cloud.urlparse first_output))).

(** One request submitted, to be finished 3 time units later. *)
Definition one_pending : Cloud.World :=
  snd (Cloud.invoke s3_bucket (fresh [inr (3%Z, "summary 0")])).

End Demo.

(* ------------------------------------------------------------------ *)
(** * The single-request cells *)

Section SingleRequest.

Variable s3_bucket : string.
Variable endpoint_name : string.
Variable urlparse : string -> ParseResult.

(** [str(response)], as [print(response)] shows the response
    dictionary. *)
Variable show_response : InvokeResponse -> string.

(** The invocation cell: the call, then its two [print] lines. *)
Definition invoke_cell : py string :=
  response <- call_or_raise
    (InvokeEndpointAsync endpoint_name (input_s3_location s3_bucket)
       "application/json") ;;;
  call (Print (show_response response)) ;;;
  let output_location := OutputLocation response in
  call (Print ("OutputLocation: " ++ output_location)) ;;;
  Ret output_location.

(** The cell after [get_output]:
    [output = get_output(output_location)] and the line that shows
    it. *)
Definition show_summary (output_location : string) : py string :=
  output <- get_output urlparse output_location ;;;
  call (Print ("Sumarrized text is: " ++ output)) ;;;
  Ret output.

(** The two cells run one after the other. *)
Definition single_request : py string :=
  output_location <- invoke_cell ;;;
  show_summary output_location.

End SingleRequest.

(* ------------------------------------------------------------------ *)
(** * Reading a trace, continued *)

Definition is_sleep (o : obs) : bool :=
  match o with
  | ObsSleep _ => true
  | _ => false
  end.

(** The seconds a trace spent in [time.sleep]. *)
Fixpoint slept (tr : list obs) : Z :=
  match tr with
  | [] => 0
  | ObsSleep secs :: rest => secs + slept rest
  | _ :: rest => slept rest
  end.

(** The reads and the sleeps of a trace, counted. *)
Definition reads (tr : list obs) : nat := length (List.filter is_read tr).

Definition sleeps (tr : list obs) : nat := length (List.filter is_sleep tr).

Section Shapes2.

Variable s3_bucket : string.
Variable endpoint_name : string.
Variable urlparse : string -> ParseResult.

(** A submission as the notebook makes them: of [input_s3_location], to
    [endpoint_name], as JSON. *)
Definition submission_obs (o : obs) : Prop :=
  match o with
  | ObsInvoke ep input ctype _ =>
      ep = endpoint_name /\ input = input_s3_location s3_bucket /\
      ctype = "application/json"
  | _ => True
  end.

(** A read made at the place [urlparse] finds in one of the locations
    [locs]. *)
Definition reads_among (locs : list string) (o : obs) : Prop :=
  match o with
  | ObsRead b k _ =>
      exists loc, In loc locs /\
        b = netloc (urlparse loc) /\ k = slice_from_1 (path (urlparse loc))
  | _ => True
  end.

(** The output locations the accepted submissions of a trace were
    answered with, oldest first. *)
Fixpoint answered (tr : list obs) : list string :=
  match tr with
  | [] => []
  | ObsInvoke _ _ _ (inr response) :: rest =>
      OutputLocation response :: answered rest
  | _ :: rest => answered rest
  end.

End Shapes2.

(* ------------------------------------------------------------------ *)
(** * The reference environment, continued *)

Module Service.

Import Cloud.

(** The object at [loc] is, or will be, [body]: nothing denies reading
    it, every job that writes there writes [body], and either it is
    stored already or a job that writes there is queued. *)
Definition promised (loc : string * string) (body : string) (w : World) : Prop :=
  (loc ∉ denied w) /\
  (forall j, In j (jobs w) -> target j = loc -> payload j = body) /\
  (objects w !! loc = Some body \/
   (objects w !! loc = None /\ exists j, In j (jobs w) /\ target j = loc)).

(** No output name the service has not handed out yet is in use: nothing
    is stored under it and no job writes there. *)
Definition unused (s3_bucket : string) (w : World) : Prop :=
  forall token, served w <= token ->
    objects w !! (s3_bucket, output_key token) = None /\
    forall j, In j (jobs w) -> target j <> (s3_bucket, output_key token).

(** [urlparse] takes the output locations of the service apart as the
    service put them together. *)
Definition parses_outputs (urlparse : string -> ParseResult)
  (s3_bucket : string) : Prop :=
  forall token,
    netloc (urlparse (output_location s3_bucket token)) = s3_bucket /\
    slice_from_1 (path (urlparse (output_location s3_bucket token)))
    = output_key token.

Fixpoint no_slash (s : string) : bool :=
  match s with
  | EmptyString => true
  | String c rest => negb (Ascii.eqb c "/"%char) && no_slash rest
  end.

(** The entry a batch cell records for the invocation the service
    numbered [token]. *)
Definition entry_at (s3_bucket : string) (token : nat) : string * string :=
  (input_s3_location s3_bucket, output_location s3_bucket token).

(** The outputs of the invocations numbered in [held] are promised, each
    with its content. *)
Definition tracking (s3_bucket : string) (w : World)
  (held : list (nat * string)) : Prop :=
  Forall (fun th => fst th < served w /\
                    promised (s3_bucket, output_key (fst th)) (snd th) w) held.

(** An inference service that accepts what [Cloud.invoke] accepts and
    then loses the request: it answers with an output location and
    never writes there. *)
Definition lossy_handler (s3_bucket : string) (T : Type) (e : awsE T)
  (w : World) : T * World :=
  match e in awsE T return T * World with
  | InvokeEndpointAsync _ _ _ => (fst (invoke s3_bucket w), w)
  | ReadS3File bucket key => read bucket key w
  | UploadFileobj bucket key body => (inr tt, write (bucket, key) body w)
  | OpenFile file _ => open file w
  | Sleep secs => (tt, tick secs w)
  | Print line => (tt, say line w)
  | Time => (clock w, w)
  end.

End Service.

(* ------------------------------------------------------------------ *)
(** * More concrete sessions *)

Module MoreDemo.

Import Demo.

(** The nine invocations the first batch cell makes, as the service
    will treat them, and the tenth it would have accepted. *)
Definition nine_specs : list (Z * string) :=
  [(6, "summary 0"); (1, "summary 1"); (3, "summary 2");
   (2, "summary 3"); (2, "summary 4"); (9, "summary 5");
   (1, "summary 6"); (4, "summary 7"); (5, "summary 8")]%Z.

Definition tenth : list (exn + Z * string) := [inr (1%Z, "summary 9")].

(** The job queued in [one_pending]. *)
Definition pending_job : Cloud.Job :=
  Cloud.mkJob 3 (s3_bucket, Cloud.output_key 0) "summary 0".

(** A rendering of the response dictionary. *)
Definition show_response (response : InvokeResponse) : string :=
  "{'OutputLocation': '" ++ OutputLocation response
  ++ "', 'InferenceId': '" ++ InferenceId response ++ "'}".

(** The record of the first batch cell when the service loses every
    request: it answers each time with the same output location. *)
Definition lost_others : list (string * string) :=
  repeat (Service.entry_at s3_bucket 0) 8.

(** An account in which reading the first output is refused. *)
Definition locked : Cloud.World :=
  Cloud.mkWorld ∅ 0 [] [] 0 {[ (s3_bucket, Cloud.output_key 0) ]} [] ∅.

(** A session like [ten_accepted] in which the first request is
    summarized differently. *)
Definition first_differs : list (exn + Z * string) :=
  inr (6%Z, "another summary") :: tl ten_accepted.

Abbreviation other_cell :=
  (run handler 200 (batch s3_bucket endpoint_name Cloud.urlparse 10)
     (fresh first_differs)).

(** An empty account on a machine that has the input file. *)
Definition with_input : Cloud.World :=
  Cloud.mkWorld ∅ 0 [] [] 0 ∅ []
    {[ "data/input.json" := "{'inputs': 'text to summarize'}" ]}.

Abbreviation lost_submissions :=
  (run (Service.lossy_handler s3_bucket) 18
     (for_each (range 1 10) (submit_step s3_bucket endpoint_name) [])
     (fresh ten_accepted)).

End MoreDemo.

(* ------------------------------------------------------------------ *)
(** * Facts about runs *)

Unset Implicit Arguments.

Section RunFacts.

Variable World : Type.
Variable handler : forall T : Type, awsE T -> World -> T * World.

Abbreviation run := (run handler).
Abbreviation ends := (ends handler).
Abbreviation diverges := (diverges handler).

Lemma observe_bind {R U : Type} (t : py R) (k : R -> py U) :
  observe (ITree.bind t k) =
  match observe t with
  | RetF r => observe (k r)
  | TauF t' => TauF (ITree.bind t' k)
  | VisF e h => VisF e (fun x => ITree.bind (h x) k)
  end.
Proof.
  transitivity (observe (match observe t with
                         | RetF r => k r
                         | TauF t' => Tau (ITree.bind t' k)
                         | VisF e h => Vis e (fun x => ITree.bind (h x) k)
                         end)).
  - reflexivity.
  - destruct (observe t); reflexivity.
Qed.

Lemma run_unfold {R : Type} fuel (t : py R) w :
  run fuel t w =
  match observe t with
  | RetF r => Snap (Some (Returned r)) w [] fuel
  | TauF t' =>
      match fuel with
      | O => Snap None w [] O
      | S fuel' => run fuel' t' w
      end
  | VisF e k =>
      match e with
      | inl1 (Throw err) => Snap (Some (Raised err)) w [] fuel
      | inr1 ev =>
          match fuel with
          | O => Snap None w [] O
          | S fuel' =>
              let '(x, w') := handler _ ev w in
              after [observed ev x] (run fuel' (k x) w')
          end
      end
  end.
Proof. destruct fuel; reflexivity. Qed.

Lemma run_observe {R : Type} (t u : py R) fuel w :
  observe t = observe u -> run fuel t w = run fuel u w.
Proof. intros H. rewrite (run_unfold fuel t), (run_unfold fuel u), H. reflexivity. Qed.

Lemma after_nil {R : Type} (s : snapshot World R) : after [] s = s.
Proof. destruct s; reflexivity. Qed.

Lemma after_app {R : Type} tr1 tr2 (s : snapshot World R) :
  after tr1 (after tr2 s) = after (tr1 ++ tr2) s.
Proof. destruct s; unfold after; cbn. rewrite app_assoc. reflexivity. Qed.

Lemma run_ret {R : Type} fuel (r : R) w :
  run fuel (Ret r) w = Snap (Some (Returned r)) w [] fuel.
Proof. rewrite run_unfold. reflexivity. Qed.

Lemma run_raise {R : Type} fuel (e : exn) w :
  run fuel (raise e : py R) w = Snap (Some (Raised e)) w [] fuel.
Proof. rewrite run_unfold. reflexivity. Qed.

Lemma run_tau {R : Type} fuel (t : py R) w :
  run (S fuel) (Tau t) w = run fuel t w.
Proof. reflexivity. Qed.

Lemma run_call {T : Type} fuel (ev : awsE T) w :
  run (S fuel) (call ev) w =
  Snap (Some (Returned (fst (handler _ ev w)))) (snd (handler _ ev w))
    [observed ev (fst (handler _ ev w))] fuel.
Proof.
  rewrite run_unfold. cbn [call observe _observe].
  destruct (handler _ ev w) as [x w']. rewrite run_ret. reflexivity.
Qed.

(** ** Sequencing *)

Lemma then_run_after {R U : Type} (k : R -> py U) tr (s : snapshot World R) :
  then_run handler k (after tr s) = after tr (then_run handler k s).
Proof.
  destruct s as [[[r|e]|] w tr' n]; unfold then_run, after; cbn;
    [|reflexivity|reflexivity].
  destruct (run n (k r) w) as [st w1 tr1 n1]; cbn.
  rewrite app_assoc. reflexivity.
Qed.

Lemma run_bind {R U : Type} (k : R -> py U) fuel :
  forall (t : py R) w,
    run fuel (ITree.bind t k) w = then_run handler k (run fuel t w).
Proof.
  induction fuel as [|n IH]; intros t w;
    rewrite (run_unfold _ (ITree.bind t k)), observe_bind, (run_unfold _ t);
    destruct (observe t) as [r|t'|X e h].
  - unfold then_run; cbn [status trace world fuel_left].
    rewrite after_nil, (run_unfold 0 (k r)). reflexivity.
  - reflexivity.
  - destruct e as [[err]|ev]; reflexivity.
  - unfold then_run; cbn [status trace world fuel_left].
    rewrite after_nil, (run_unfold (S n) (k r)). reflexivity.
  - apply IH.
  - destruct e as [[err]|ev]; [reflexivity|].
    destruct (handler _ ev w) as [x w']. rewrite IH, then_run_after. reflexivity.
Qed.

Lemma run_iter {I R : Type} (body : I -> py (I + R)) (i : I) fuel w :
  run fuel (ITree.iter body i) w =
  run fuel (ITree.bind (body i) (fun lr =>
    match lr with
    | inl l => Tau (ITree.iter body l)
    | inr r => Ret r
    end)) w.
Proof. apply run_observe. reflexivity. Qed.

(** ** Fuel *)

Lemma run_fuel_left_le {R : Type} fuel :
  forall (t : py R) w, fuel_left (run fuel t w) <= fuel.
Proof.
  induction fuel as [|n IH]; intros t w; rewrite run_unfold;
    destruct (observe t) as [r|t'|X e h]; cbn [fuel_left]; try lia.
  - destruct e as [[err]|ev]; cbn [fuel_left]; lia.
  - specialize (IH t' w). lia.
  - destruct e as [[err]|ev]; cbn [fuel_left]; [lia|].
    destruct (handler _ ev w) as [x w']. unfold after; cbn [fuel_left].
    specialize (IH (h x) w'). lia.
Qed.

(** A run that has ended stays as it is when given more fuel. *)
Lemma run_more {R : Type} fuel :
  forall (t : py R) w o extra,
    status (run fuel t w) = Some o ->
    run (fuel + extra) t w =
    Snap (Some o) (world (run fuel t w)) (trace (run fuel t w))
      (fuel_left (run fuel t w) + extra).
Proof.
  induction fuel as [|n IH]; intros t w o extra;
    rewrite (run_unfold _ t), (run_unfold (_ + extra) t);
    destruct (observe t) as [r|t'|X e h]; cbn [status world trace fuel_left].
  - intros [= <-]. reflexivity.
  - discriminate.
  - destruct e as [[err]|ev]; cbn [status]; [|discriminate].
    intros [= <-]. reflexivity.
  - intros [= <-]. reflexivity.
  - cbn [Nat.add]. apply IH.
  - destruct e as [[err]|ev]; cbn [status world trace fuel_left].
    + intros [= <-]. reflexivity.
    + cbn [Nat.add]. destruct (handler _ ev w) as [x w'].
      unfold after; cbn [status world trace fuel_left]. intros Hst.
      rewrite (IH _ _ _ extra Hst). reflexivity.
Qed.

(** Two ended runs of one program from one world agree. *)
Lemma ends_det {R : Type} (t : py R) w o1 w1 tr1 o2 w2 tr2 :
  ends t w o1 w1 tr1 -> ends t w o2 w2 tr2 ->
  o1 = o2 /\ w1 = w2 /\ tr1 = tr2.
Proof.
  intros (n1 & l1 & H1) (n2 & l2 & H2).
  pose proof (run_more n1 t w o1 n2) as M1.
  pose proof (run_more n2 t w o2 n1) as M2.
  rewrite H1 in M1. rewrite H2 in M2. cbn in M1, M2.
  specialize (M1 eq_refl). specialize (M2 eq_refl).
  rewrite (Nat.add_comm n2 n1) in M2. rewrite M1 in M2.
  injection M2 as <- <- <- _. auto.
Qed.

Lemma ends_not_diverges {R : Type} (t : py R) w o w' tr :
  ends t w o w' tr -> ~ diverges t w.
Proof. intros (n & l & H) D. specialize (D n). rewrite H in D. discriminate. Qed.

End RunFacts.

(* ------------------------------------------------------------------ *)
(** * Properties of every snapshot of a program *)

(** A property [Inv err tr] of the trace shown so far, given how the run
    stands ([err] is the exception it has raised, if any), that holds of
    nothing observed yet and extends over sequencing, holds at every
    step of a program once it holds at every step of its parts. *)
Section TraceInvariant.

Variable World : Type.
Variable handler : forall T : Type, awsE T -> World -> T * World.
Variable Inv : option exn -> list obs -> Prop.
Hypothesis Inv_nil : Inv None [].
Hypothesis Inv_app : forall tr1 tr2 err,
  Inv None tr1 -> Inv err tr2 -> Inv err (tr1 ++ tr2).

Abbreviation holds := (always World handler Inv).

Lemma always_ret {R : Type} (r : R) : holds (Ret r).
Proof. intros fuel w. rewrite run_ret. exact Inv_nil. Qed.

Lemma always_bind {R U : Type} (t : py R) (k : R -> py U) :
  holds t -> (forall r, holds (k r)) -> holds (ITree.bind t k).
Proof.
  intros Ht Hk fuel w. rewrite run_bind. specialize (Ht fuel w).
  destruct (run handler fuel t w) as [[[r|e]|] w1 tr1 left];
    unfold then_run, failure in *; cbn [status trace world fuel_left] in *.
  - unfold after; cbn [status trace]. apply Inv_app; [exact Ht | apply Hk].
  - exact Ht.
  - exact Ht.
Qed.

Lemma always_call {T : Type} (ev : awsE T) :
  (forall x, Inv None [observed ev x]) -> holds (call ev).
Proof.
  intros H [|n] w.
  - rewrite run_unfold. exact Inv_nil.
  - rewrite run_call. apply H.
Qed.

(** A call whose answer decides how the program goes on, possibly by
    raising. *)
Lemma always_call_then {T R : Type} (ev : awsE T) (k : T -> py R) :
  (forall x fuel w,
      Inv (failure (run handler fuel (k x) w))
        (observed ev x :: trace (run handler fuel (k x) w))) ->
  holds (ITree.bind (call ev) k).
Proof.
  intros H [|n] w; rewrite run_bind.
  - rewrite run_unfold. exact Inv_nil.
  - rewrite run_call. unfold then_run, failure, after in *.
    cbn [status trace world fuel_left]. apply H.
Qed.

Lemma always_iter {I R : Type} (body : I -> py (I + R)) :
  (forall i, holds (body i)) -> forall i, holds (ITree.iter body i).
Proof.
  intros Hbody i fuel. revert i.
  induction fuel as [fuel IH] using lt_wf_ind.
  intros i w. rewrite run_iter, run_bind.
  pose proof (Hbody i fuel w) as Hb.
  pose proof (run_fuel_left_le World handler fuel (body i) w) as Hle.
  destruct (run handler fuel (body i) w) as [[[[i'|r]|e]|] w1 tr1 left];
    unfold then_run, failure in *; cbn [status trace world fuel_left] in *;
    try exact Hb.
  - destruct left as [|left].
    + rewrite run_unfold. unfold after; cbn [status trace observe _observe].
      rewrite app_nil_r. exact Hb.
    + rewrite run_tau. unfold after; cbn [status trace].
      apply Inv_app; [exact Hb | apply IH; lia].
  - rewrite run_ret. unfold after; cbn [status trace].
    rewrite app_nil_r. exact Hb.
Qed.

Lemma always_for_each {A V : Type} (body : A -> V -> py V) (xs : list A) :
  (forall x s, holds (body x s)) -> forall s, holds (for_each xs body s).
Proof.
  intros Hbody. induction xs as [|x xs IH]; intros s; cbn [for_each].
  - apply always_ret.
  - apply always_bind; [apply Hbody | exact IH].
Qed.

End TraceInvariant.

(** ** Programs that show only observations of one kind *)

Section Only.

Variable World : Type.
Variable handler : forall T : Type, awsE T -> World -> T * World.
Variable P : obs -> Prop.

Abbreviation shows := (only World handler P).

Lemma only_app (tr1 tr2 : list obs) (err : option exn) :
  Forall P tr1 -> Forall P tr2 -> Forall P (tr1 ++ tr2).
Proof. intros H1 H2. apply Forall_app. split; assumption. Qed.

Lemma only_ret {R : Type} (r : R) : shows (Ret r).
Proof. apply always_ret. constructor. Qed.

Lemma only_raise {R : Type} (e : exn) : shows (raise e : py R).
Proof. intros fuel w. rewrite run_raise. constructor. Qed.

Lemma only_call {T : Type} (ev : awsE T) :
  (forall x, P (observed ev x)) -> shows (call ev).
Proof.
  intros H. apply always_call; [constructor|].
  intros x. constructor; [apply H | constructor].
Qed.

Lemma only_bind {R U : Type} (t : py R) (k : R -> py U) :
  shows t -> (forall r, shows (k r)) -> shows (ITree.bind t k).
Proof. apply always_bind. exact only_app. Qed.

Lemma only_call_or_raise {T : Type} (ev : awsE (exn + T)) :
  (forall x, P (observed ev x)) -> shows (call_or_raise ev).
Proof.
  intros H. apply only_bind; [apply only_call; exact H|].
  intros [e|v]; [apply only_raise | apply only_ret].
Qed.

Lemma only_iter {I R : Type} (body : I -> py (I + R)) :
  (forall i, shows (body i)) -> forall i, shows (ITree.iter body i).
Proof. apply always_iter. exact only_app. Qed.

Lemma only_for_each {A V : Type} (body : A -> V -> py V) (xs : list A) :
  (forall x s, shows (body x s)) -> forall s, shows (for_each xs body s).
Proof. apply always_for_each; [constructor | exact only_app]. Qed.

End Only.

Lemma only_weaken (World : Type)
  (handler : forall T : Type, awsE T -> World -> T * World)
  (P Q : obs -> Prop) {R : Type} (t : py R) :
  (forall o, P o -> Q o) -> only World handler P t -> only World handler Q t.
Proof.
  intros HPQ H fuel w. specialize (H fuel w). cbn beta in *.
  eapply Forall_impl; [exact H | exact HPQ].
Qed.

(* ------------------------------------------------------------------ *)
(** * The polling loop *)

Section Polling.

Variable s3_bucket : string.
Variable endpoint_name : string.
Variable urlparse : string -> ParseResult.
Variable World : Type.
Variable handler : forall T : Type, awsE T -> World -> T * World.

Abbreviation run := (run handler).

Variable output_location : string.

Abbreviation poll := (get_output urlparse output_location).

Abbreviation bucket := (netloc (urlparse output_location)).
Abbreviation key := (slice_from_1 (path (urlparse output_location))).
Abbreviation read_at := (fun w => handler _ (ReadS3File bucket key) w).

Lemma run_zero_call_then {T R : Type} (ev : awsE T) (k : T -> py R) w :
  run 0 (ITree.bind (call ev) k) w = Snap None w [] 0.
Proof. rewrite run_bind, run_unfold. reflexivity. Qed.

Lemma run_call_then {T R : Type} (ev : awsE T) (k : T -> py R) fuel w :
  run (S fuel) (ITree.bind (call ev) k) w =
  after [observed ev (fst (handler _ ev w))]
    (run fuel (k (fst (handler _ ev w))) (snd (handler _ ev w))).
Proof. rewrite run_bind, run_call. reflexivity. Qed.

Lemma get_output_unfold fuel w :
  run fuel poll w =
  then_run handler (fun lr : unit + string =>
      match lr with
      | inl _ => Tau poll
      | inr content => Ret content
      end)
    (run fuel (get_output_attempt (urlparse output_location) tt) w).
Proof.
  unfold get_output. rewrite run_iter, run_bind.
  destruct (run fuel _ w) as [[[[[]|c]|e]|] w1 tr1 left]; reflexivity.
Qed.

Lemma get_output_zero w :
  run 0 poll w = Snap None w [] 0.
Proof.
  rewrite get_output_unfold. unfold get_output_attempt.
  rewrite run_zero_call_then. reflexivity.
Qed.

(** The read found the object: its content is returned at once. *)
Lemma get_output_found fuel w content :
  fst (read_at w) = inr content ->
  run (S fuel) poll w =
  Snap (Some (Returned content)) (snd (read_at w))
    [ObsRead bucket key (inr content)] fuel.
Proof.
  intros H. rewrite get_output_unfold. unfold get_output_attempt.
  rewrite run_call_then, H, run_ret. unfold then_run, after.
  cbn [status trace world fuel_left observed]. rewrite run_ret. reflexivity.
Qed.

(** The read failed with something else than [NoSuchKey]: raised at
    once. *)
Lemma get_output_fatal fuel w e :
  fst (read_at w) = inl e -> is_no_such_key e = false ->
  run (S fuel) poll w =
  Snap (Some (Raised e)) (snd (read_at w)) [ObsRead bucket key (inl e)] fuel.
Proof.
  intros H Hk. rewrite get_output_unfold. unfold get_output_attempt.
  rewrite run_call_then, H, Hk, run_raise. reflexivity.
Qed.

(** The read failed with [NoSuchKey]: message, sleep, and the loop
    starts over in the world the wait left. *)
Lemma get_output_retry fuel w e :
  fst (read_at w) = inl e -> is_no_such_key e = true ->
  run (4 + fuel) poll w =
  after (retry_block bucket key e)
    (run fuel poll (wait_world handler (snd (read_at w)))).
Proof.
  intros H Hk. rewrite get_output_unfold. unfold get_output_attempt.
  cbn [Nat.add]. rewrite run_call_then, H, Hk.
  rewrite run_call_then, run_call_then, run_ret.
  unfold then_run, after. cbn [status trace world fuel_left observed app].
  rewrite run_tau. reflexivity.
Qed.

(** The same, caught before the wait is over: still going. *)
Lemma get_output_retry_short fuel w e :
  fst (read_at w) = inl e -> is_no_such_key e = true -> fuel < 4 ->
  status (run fuel poll w) = None.
Proof.
  intros H Hk Hlt. rewrite get_output_unfold. unfold get_output_attempt.
  destruct fuel as [|[|[|[|fuel]]]]; [| | | |lia].
  - rewrite run_zero_call_then. reflexivity.
  - rewrite run_call_then, H, Hk, run_zero_call_then. reflexivity.
  - rewrite run_call_then, H, Hk, run_call_then, run_zero_call_then. reflexivity.
  - rewrite run_call_then, H, Hk, run_call_then, run_call_then, run_ret.
    reflexivity.
Qed.

(** ** What every snapshot of a poll shows *)

Lemma guarded_nil : guarded None [].
Proof. constructor. Qed.

Lemma guarded_app tr1 tr2 err :
  guarded None tr1 -> guarded err tr2 -> guarded err (tr1 ++ tr2).
Proof.
  intros H1 H2. destruct err as [e|]; cbn in *.
  - destruct H2 as (tr0 & o & -> & Hc & Ho).
    exists (tr1 ++ tr0), o. rewrite app_assoc. split; [reflexivity|].
    split; [|exact Ho]. apply Forall_app. split; assumption.
  - apply Forall_app. split; assumption.
Qed.

Lemma guarded_one o : unrecovered o = None -> guarded None [o].
Proof. intros H. constructor; [exact H | constructor]. Qed.

Lemma guarded_cons o tr err :
  unrecovered o = None -> guarded err tr -> guarded err (o :: tr).
Proof. intros Ho H. apply (guarded_app [o] tr err); [apply guarded_one; exact Ho | exact H]. Qed.

Lemma guarded_last o e : unrecovered o = Some e -> guarded (Some e) [o].
Proof. intros H. exists [], o. split; [reflexivity|]. split; [constructor | exact H]. Qed.

Lemma poll_always_guarded : always World handler guarded poll.
Proof.
  unfold get_output.
  apply always_iter; [exact guarded_app |]. intros [].
  unfold get_output_attempt. apply always_call_then; [exact guarded_nil|].
  intros [e|content] fuel w; cbn [observed].
  - destruct (is_no_such_key e) eqn:Hk.
    + apply guarded_cons.
      * cbn. rewrite Hk. reflexivity.
      * apply always_bind; [exact guarded_app | |].
        -- apply always_call; [exact guarded_nil|]. intros []. apply guarded_one. reflexivity.
        -- intros _. apply always_bind; [exact guarded_app | |].
           ++ apply always_call; [exact guarded_nil|]. intros []. apply guarded_one. reflexivity.
           ++ intros _. apply always_ret. exact guarded_nil.
    + rewrite run_raise. apply guarded_last. cbn. rewrite Hk. reflexivity.
  - rewrite run_ret. apply guarded_one. reflexivity.
Qed.

(** A poll observes nothing but reads of its own bucket and key, the
    waiting message and sleeps of 2: in particular no submission and no
    write. *)
Lemma poll_only_obs : only World handler (poll_obs bucket key) poll.
Proof.
  unfold get_output. apply only_iter. intros [].
  unfold get_output_attempt. apply only_bind.
  - apply only_call. intros r. cbn. split; reflexivity.
  - intros [e|content]; [|apply only_ret].
    destruct (is_no_such_key e); [|apply only_raise].
    apply only_bind; [apply only_call; intros []; reflexivity|].
    intros _. apply only_bind; [apply only_call; intros []; reflexivity|].
    intros _. apply only_ret.
Qed.

(** ** Polls that return *)

Lemma poll_returned fuel : forall w content,
  status (run fuel poll w) = Some (Returned content) ->
  poll_trace bucket key content (trace (run fuel poll w)).
Proof.
  induction fuel as [fuel IH] using lt_wf_ind. intros w content.
  destruct fuel as [|fuel]; [rewrite get_output_zero; discriminate|].
  destruct (fst (read_at w)) as [e|c] eqn:Hr.
  - destruct (is_no_such_key e) eqn:Hk.
    + destruct (Nat.lt_ge_cases (S fuel) 4) as [Hlt|Hge].
      * rewrite (get_output_retry_short _ _ _ Hr Hk Hlt). discriminate.
      * replace (S fuel) with (4 + (fuel - 3)) by lia.
        rewrite (get_output_retry _ _ _ Hr Hk). unfold after; cbn [status trace].
        intros Hst. apply poll_waited; [exact Hk|]. apply IH; [lia | exact Hst].
    + rewrite (get_output_fatal _ _ _ Hr Hk). discriminate.
  - rewrite (get_output_found _ _ _ Hr). cbn [status trace].
    intros [= <-]. apply poll_found.
Qed.

(** ** Polls that keep waiting *)

Lemma not_found_at_inv w :
  not_found_at handler bucket key w = true ->
  exists e, fst (read_at w) = inl e /\ is_no_such_key e = true.
Proof.
  unfold not_found_at, read_answer. destruct (fst (read_at w)) as [e|c].
  - intros H. exists e. split; [reflexivity | exact H].
  - discriminate.
Qed.

(** [n] reads in a row that find nothing: the run is [n] retries, then a
    poll from the world they left. *)
Lemma poll_after_retries n : forall w fuel,
  (forall i, i < n ->
     not_found_at handler bucket key (after_retries handler bucket key i w) = true) ->
  run (4 * n + fuel) poll w =
  after (waiting_trace handler bucket key n w)
    (run fuel poll (after_retries handler bucket key n w)).
Proof.
  induction n as [|n IH]; intros w fuel H.
  - cbn [Nat.mul Nat.add after_retries waiting_trace]. rewrite after_nil. reflexivity.
  - destruct (not_found_at_inv w (H 0 ltac:(lia))) as (e & Hr & Hk).
    replace (4 * S n + fuel) with (4 + (4 * n + fuel)) by lia.
    rewrite (get_output_retry _ _ _ Hr Hk).
    cbn [after_retries waiting_trace]. unfold retry_world.
    rewrite IH.
    + rewrite after_app. unfold retry_block, read_answer. rewrite Hr. reflexivity.
    + intros i Hi. apply (H (S i)). lia.
Qed.

(** Reads that never find anything: the poll never ends. *)
Lemma poll_never fuel : forall w,
  (forall i,
     not_found_at handler bucket key (after_retries handler bucket key i w) = true) ->
  status (run fuel poll w) = None.
Proof.
  induction fuel as [fuel IH] using lt_wf_ind. intros w H.
  destruct (not_found_at_inv w (H 0)) as (e & Hr & Hk).
  destruct (Nat.lt_ge_cases fuel 4) as [Hlt|Hge].
  - apply (get_output_retry_short _ _ _ Hr Hk Hlt).
  - replace fuel with (4 + (fuel - 4)) by lia.
    rewrite (get_output_retry _ _ _ Hr Hk). unfold after; cbn [status].
    apply IH; [lia|]. intros i. apply (H (S i)).
Qed.

End Polling.

(* ------------------------------------------------------------------ *)
(** * The batch cells *)

Section Batch.

Variable s3_bucket : string.
Variable endpoint_name : string.
Variable urlparse : string -> ParseResult.
Variable World : Type.
Variable handler : forall T : Type, awsE T -> World -> T * World.

Abbreviation run := (run handler).
Abbreviation submit := (submit_step s3_bucket endpoint_name).
Abbreviation collect := (collect_step urlparse).
Abbreviation cell := (batch s3_bucket endpoint_name urlparse).
Abbreviation entry := (entry_of s3_bucket).
Abbreviation submitted := (submit_trace s3_bucket endpoint_name).
Abbreviation collected := (collect_trace urlparse).

Lemma then_run_returned {R U : Type} (k : R -> py U) (s : snapshot World R) v :
  status (then_run handler k s) = Some (Returned v) ->
  exists r,
    status s = Some (Returned r) /\
    status (run (fuel_left s) (k r) (world s)) = Some (Returned v) /\
    trace (then_run handler k s) =
    trace s ++ trace (run (fuel_left s) (k r) (world s)).
Proof.
  destruct s as [[[r|e]|] w1 tr1 left]; unfold then_run;
    cbn [status trace world fuel_left]; [|discriminate|discriminate].
  unfold after; cbn [status trace]. intros H. exists r. auto.
Qed.

Lemma range_length (lo hi : Z) : length (range lo hi) = Z.to_nat (hi - lo).
Proof.
  unfold range. generalize (Z.to_nat (hi - lo)) as len. intros len. revert lo.
  induction len as [|len IH]; intros lo; cbn; [reflexivity|].
  rewrite IH. reflexivity.
Qed.

(** ** The submission loop *)

Lemma submit_step_returned (i : Z) acc fuel w record :
  status (run fuel (submit i acc) w) = Some (Returned record) ->
  exists item,
    record = acc ++ [entry item] /\
    trace (run fuel (submit i acc) w) = submitted [item].
Proof.
  unfold submit_step, call_or_raise.
  destruct fuel as [|[|fuel]].
  - rewrite run_zero_call_then. discriminate.
  - rewrite run_call_then, run_bind, run_zero_call_then. discriminate.
  - rewrite run_call_then, run_bind, run_call_then.
    destruct (handler _ Time w) as [t w1]; cbn [fst snd observed].
    destruct (handler _ (InvokeEndpointAsync _ _ _) w1) as [[e|resp] w2];
      cbn [fst snd observed].
    + rewrite run_raise. discriminate.
    + rewrite run_ret. unfold then_run, after.
      cbn [status trace world fuel_left app]. rewrite run_ret.
      cbn [status trace app]. intros [= <-]. exists (t, resp). split; reflexivity.
Qed.

Lemma submit_loop_returned (xs : list Z) : forall acc fuel w record,
  status (run fuel (for_each xs submit acc) w) = Some (Returned record) ->
  exists items,
    length items = length xs /\
    record = acc ++ map entry items /\
    trace (run fuel (for_each xs submit acc) w) = submitted items.
Proof.
  induction xs as [|x xs IH]; intros acc fuel w record; cbn [for_each].
  - rewrite run_ret. cbn [status trace]. intros [= <-].
    exists []. cbn. rewrite app_nil_r. auto.
  - rewrite run_bind. intros H.
    apply then_run_returned in H. destruct H as (r & Hs & Hk & ->).
    apply submit_step_returned in Hs. destruct Hs as (item & -> & ->).
    apply IH in Hk. destruct Hk as (items & Hlen & -> & ->).
    exists (item :: items). cbn [length map]. rewrite Hlen, <- app_assoc.
    split; [reflexivity|]. split; reflexivity.
Qed.

(** ** The collection loop *)

Lemma collect_step_returned input_file output_location prev fuel w out :
  status (run fuel (collect (input_file, output_location) prev) w)
  = Some (Returned out) ->
  exists content trp,
    out = Some content /\
    poll_trace (netloc (urlparse output_location))
      (slice_from_1 (path (urlparse output_location))) content trp /\
    trace (run fuel (collect (input_file, output_location) prev) w)
    = trp ++ [ObsPrint (report_line input_file output_location)].
Proof.
  unfold collect_step. rewrite run_bind. intros H.
  apply then_run_returned in H. destruct H as (content & Hs & Hk & ->).
  apply poll_returned in Hs.
  destruct (fuel_left _) as [|left].
  - rewrite run_zero_call_then in Hk. discriminate.
  - rewrite run_call_then, run_ret in *. unfold after in *.
    cbn [status trace app observed] in *. injection Hk as <-.
    exists content, (trace (run fuel (get_output urlparse output_location) w)).
    auto.
Qed.

Lemma collect_loop_returned (record : list (string * string)) :
  forall prev fuel w out,
    status (run fuel (for_each record collect prev) w) = Some (Returned out) ->
    exists contents,
      collected record contents (trace (run fuel (for_each record collect prev) w)) /\
      out = match last contents with
            | Some content => Some content
            | None => prev
            end.
Proof.
  induction record as [|[input_file output_location] record IH];
    intros prev fuel w out; cbn [for_each].
  - rewrite run_ret. cbn [status trace]. intros [= <-].
    exists []. split; [constructor | reflexivity].
  - rewrite run_bind. intros H.
    apply then_run_returned in H. destruct H as (r & Hs & Hk & ->).
    apply collect_step_returned in Hs. destruct Hs as (content & trp & -> & Hp & ->).
    apply IH in Hk. destruct Hk as (contents & Hc & ->).
    exists (content :: contents). split.
    + rewrite <- app_assoc. cbn [app]. constructor; assumption.
    + rewrite last_cons. destruct (last contents); reflexivity.
Qed.

(** ** A batch cell that runs to its end *)

(** The record is the accepted submissions in the order they were made;
    the trace is the submissions, the header, then the polls of the
    record's entries in the record's order; [output] is the content the
    last poll returned. *)
Lemma batch_returned (n : Z) fuel w vars :
  status (run fuel (cell n) w) = Some (Returned vars) ->
  exists items contents tr_c,
    length items = Z.to_nat (n - 1) /\
    inferences vars = map entry items /\
    trace (run fuel (cell n) w)
    = submitted items ++ ObsPrint batch_header :: tr_c /\
    collected (inferences vars) contents tr_c /\
    output vars = last contents.
Proof.
  unfold batch. rewrite run_bind. intros H.
  apply then_run_returned in H. destruct H as (record & Hs & Hk & ->).
  apply submit_loop_returned in Hs. destruct Hs as (items & Hlen & -> & ->).
  cbn [app] in *. rewrite range_length in Hlen.
  destruct (fuel_left _) as [|left].
  - rewrite run_zero_call_then in Hk. discriminate.
  - rewrite run_call_then, run_bind in *. unfold after in *.
    cbn [status trace observed app] in *.
    apply then_run_returned in Hk. destruct Hk as (out & Hc & Hk & ->).
    rewrite run_ret in *. cbn [status trace] in *. injection Hk as <-.
    apply collect_loop_returned in Hc. destruct Hc as (contents & Hc & ->).
    exists items, contents,
      (trace (run left (for_each (map entry items) collect None)
                (snd (handler _ (Print batch_header)
                        (world (run fuel (for_each (range 1 n) submit []) w)))))).
    rewrite app_nil_r. cbn [inferences output].
    repeat split; try assumption; try reflexivity.
    destruct (last contents); reflexivity.
Qed.

(** ** What every snapshot of a batch cell shows *)

Lemma submit_step_guarded (i : Z) acc :
  always World handler guarded (submit i acc).
Proof.
  unfold submit_step. apply always_bind; [exact guarded_app | |].
  - apply always_call; [exact guarded_nil|]. intros t. apply guarded_one. reflexivity.
  - intros _. apply always_bind; [exact guarded_app | |].
    + unfold call_or_raise. apply always_call_then; [exact guarded_nil|].
      intros [e|resp] fuel w; cbn [observed].
      * rewrite run_raise. apply guarded_last. reflexivity.
      * rewrite run_ret. apply guarded_one. reflexivity.
    + intros resp. apply always_ret. exact guarded_nil.
Qed.

Lemma collect_step_guarded entry prev :
  always World handler guarded (collect entry prev).
Proof.
  destruct entry as [input_file output_location]. unfold collect_step.
  apply always_bind; [exact guarded_app | apply poll_always_guarded |].
  intros content. apply always_bind; [exact guarded_app | |].
  - apply always_call; [exact guarded_nil|]. intros []. apply guarded_one. reflexivity.
  - intros _. apply always_ret. exact guarded_nil.
Qed.

Lemma batch_always_guarded (n : Z) : always World handler guarded (cell n).
Proof.
  unfold batch. apply always_bind; [exact guarded_app | |].
  - apply always_for_each; [exact guarded_nil | exact guarded_app |].
    apply submit_step_guarded.
  - intros record. apply always_bind; [exact guarded_app | |].
    + apply always_call; [exact guarded_nil|]. intros []. apply guarded_one. reflexivity.
    + intros _. apply always_bind; [exact guarded_app | |].
      * apply always_for_each; [exact guarded_nil | exact guarded_app |].
        apply collect_step_guarded.
      * intros out. apply always_ret. exact guarded_nil.
Qed.

(** The submission loop reads nothing. *)
Lemma submit_loop_reads_nothing (xs : list Z) acc :
  only World handler (fun o => is_read o = false) (for_each xs submit acc).
Proof.
  apply only_for_each. intros x s. unfold submit_step.
  apply only_bind; [apply only_call; reflexivity|]. intros _.
  apply only_bind; [apply only_call_or_raise; reflexivity|]. intros resp.
  apply only_ret.
Qed.

(** What follows the submission loop submits nothing. *)
Lemma collection_submits_nothing (record : list (string * string)) :
  only World handler (fun o => is_invoke o = false)
    (call (Print batch_header) ;;;
     output <- for_each record collect None ;;;
     Ret (mkBatchVars record output)).
Proof.
  apply only_bind; [apply only_call; reflexivity|]. intros _.
  apply only_bind; [|intros out; apply only_ret].
  apply only_for_each. intros [input_file output_location] prev.
  unfold collect_step. apply only_bind.
  - eapply only_weaken; [|apply poll_only_obs].
    intros [] H; cbn in *; try reflexivity; contradiction.
  - intros content. apply only_bind; [apply only_call; reflexivity|].
    intros _. apply only_ret.
Qed.

(** Every snapshot of a batch cell splits in two: a part without reads,
    then a part without submissions. *)
Lemma batch_phases (n : Z) fuel w :
  exists tr_s tr_c,
    trace (run fuel (cell n) w) = tr_s ++ tr_c /\
    Forall (fun o => is_read o = false) tr_s /\
    Forall (fun o => is_invoke o = false) tr_c.
Proof.
  unfold batch. rewrite run_bind.
  pose proof (submit_loop_reads_nothing (range 1 n) [] fuel w) as Hs.
  cbn beta in Hs.
  destruct (run fuel (for_each (range 1 n) submit []) w)
    as [[[record|e]|] w1 tr1 left]; unfold then_run;
    cbn [status trace world fuel_left] in *.
  - exists tr1, (trace (run left
      (call (Print batch_header) ;;;
       output <- for_each record collect None ;;;
       Ret (mkBatchVars record output)) w1)).
    split; [reflexivity|]. split; [exact Hs|].
    apply (collection_submits_nothing record left w1).
  - exists tr1, []. rewrite app_nil_r. auto.
  - exists tr1, []. rewrite app_nil_r. auto.
Qed.

(** In a guarded trace an unrecovered error can only be the last thing
    observed, and the run has then raised it. *)
Lemma guarded_error_is_last err tr1 o tr2 e :
  guarded err (tr1 ++ o :: tr2) -> unrecovered o = Some e ->
  err = Some e /\ tr2 = [].
Proof.
  intros G Ho. destruct err as [e'|]; cbn in G.
  - destruct G as (tr0 & o' & Heq & Hc & Ho').
    destruct tr2 as [|x tr2 _] using rev_ind.
    + apply app_inj_tail in Heq. destruct Heq as [_ <-].
      split; [congruence | reflexivity].
    + exfalso. change (tr1 ++ o :: tr2 ++ [x]) with (tr1 ++ (o :: tr2) ++ [x]) in Heq.
      rewrite app_assoc in Heq. apply app_inj_tail in Heq. destruct Heq as [<- _].
      apply Forall_app in Hc. destruct Hc as [_ Hc].
      inversion Hc; congruence.
  - exfalso. apply Forall_app in G. destruct G as [_ G].
    inversion G; congruence.
Qed.

End Batch.

(* ------------------------------------------------------------------ *)
(** * Facts about the reference environment *)

Module CloudFacts.

Import Cloud.

Lemma read_absent bucket key w :
  objects w !! (bucket, key) = None -> (bucket, key) ∉ denied w ->
  read bucket key w = (inl no_such_key, w).
Proof.
  intros Hnone Hok. unfold read.
  rewrite bool_decide_eq_false_2 by exact Hok. rewrite Hnone. reflexivity.
Qed.

Lemma read_present bucket key w body :
  objects w !! (bucket, key) = Some body -> (bucket, key) ∉ denied w ->
  read bucket key w = (inr body, w).
Proof.
  intros Hsome Hok. unfold read.
  rewrite bool_decide_eq_false_2 by exact Hok. rewrite Hsome. reflexivity.
Qed.

(** A read never changes the world, whatever it answers. *)
Lemma read_keeps_world bucket key w : snd (read bucket key w) = w.
Proof.
  unfold read. destruct (bool_decide _); [reflexivity|].
  destruct (objects w !! (bucket, key)); reflexivity.
Qed.

Section Idle.

Variable s3_bucket : string.
Variable bucket key : string.

Lemma idle_not_found w :
  idle bucket key w -> not_found_at (handler s3_bucket) bucket key w = true.
Proof.
  intros (Hnone & _ & Hok). unfold not_found_at, read_answer. cbn [handler].
  rewrite (read_absent _ _ _ Hnone Hok). reflexivity.
Qed.

Lemma retry_world_idle w :
  idle bucket key w ->
  idle bucket key (retry_world (handler s3_bucket) bucket key w) /\
  objects (retry_world (handler s3_bucket) bucket key w) = objects w.
Proof.
  intros (Hnone & Hjobs & Hok). unfold retry_world, wait_world. cbn [handler snd].
  rewrite read_keeps_world. destruct w as [objs clk js pl sv dn out dk].
  cbn in Hnone, Hjobs, Hok. subst js. unfold idle, tick, settle, say. cbn.
  auto.
Qed.

Lemma after_retries_idle n : forall w,
  idle bucket key w ->
  idle bucket key (after_retries (handler s3_bucket) bucket key n w) /\
  objects (after_retries (handler s3_bucket) bucket key n w) = objects w.
Proof.
  induction n as [|n IH]; intros w Hw; cbn [after_retries]; [auto|].
  destruct (retry_world_idle w Hw) as [Hw' Hobj].
  destruct (IH _ Hw') as [Hw'' Hobj']. split; [exact Hw''|]. congruence.
Qed.

End Idle.

End CloudFacts.

(* ------------------------------------------------------------------ *)
(** * The Result Poller *)

(** The test of the [except] branch holds of [ClientError] with code
    [NoSuchKey] and of nothing else. *)
Lemma is_no_such_key_code (e : exn) :
  is_no_such_key e = true <->
  exists message, e = ClientError "NoSuchKey" message.
Proof.
  split.
  - destruct e as [code message|class_name message]; cbn [is_no_such_key];
      [|discriminate].
    intros H. apply String.eqb_eq in H. subst code. exists message. reflexivity.
  - intros [message ->]. reflexivity.
Qed.

Section PollerClaims.

Variable urlparse : string -> ParseResult.
Variable World : Type.
Variable handler : forall T : Type, awsE T -> World -> T * World.

(** C1: get_output retries if and only if the read raised ClientError
    with code NoSuchKey.  After such a read it prints its message,
    sleeps 2 and starts over; a read that raised anything else (a
    ClientError with another code, or another exception) raises it at
    once with the read as the only thing observed; a read that succeeds
    is returned.  So a sleep, and a second read, are seen exactly when
    the first read raised ClientError with code NoSuchKey. *)
Theorem get_output_retry_policy (output_location : string) (w : World)
  (fuel : nat) :
  let bucket := netloc (urlparse output_location) in
  let key := slice_from_1 (path (urlparse output_location)) in
  let poll := get_output urlparse output_location in
  let answer := fst (handler _ (ReadS3File bucket key) w) in
  let w1 := snd (handler _ (ReadS3File bucket key) w) in
  let not_found :=
    exists message, answer = inl (ClientError "NoSuchKey" message) in
  (forall message,
      answer = inl (ClientError "NoSuchKey" message) ->
      run handler (4 + fuel) poll w =
      after [ObsRead bucket key answer;
             ObsPrint "waiting for output..."; ObsSleep 2]
        (run handler fuel poll (wait_world handler w1))) /\
  (forall e,
      answer = inl e ->
      (forall message, e <> ClientError "NoSuchKey" message) ->
      run handler (1 + fuel) poll w =
      Snap (Some (Raised e)) w1 [ObsRead bucket key answer] fuel) /\
  (forall content,
      answer = inr content ->
      run handler (1 + fuel) poll w =
      Snap (Some (Returned content)) w1 [ObsRead bucket key answer] fuel) /\
  (0 < sleeps (trace (run handler (5 + fuel) poll w)) <-> not_found) /\
  (1 < reads (trace (run handler (5 + fuel) poll w)) <-> not_found).
Proof.
  cbn zeta.
  set (bucket := netloc (urlparse output_location)).
  set (key := slice_from_1 (path (urlparse output_location))).
  destruct (fst (handler _ (ReadS3File bucket key) w)) as [e|content] eqn:Hr.
  - destruct (is_no_such_key e) eqn:Hk.
    + pose proof (proj1 (is_no_such_key_code e) Hk) as [message0 He].
      assert (Hretry : forall fuel',
                 run handler (4 + fuel') (get_output urlparse output_location) w =
                 after [ObsRead bucket key (inl e);
                        ObsPrint "waiting for output..."; ObsSleep 2]
                   (run handler fuel' (get_output urlparse output_location)
                      (wait_world handler
                         (snd (handler _ (ReadS3File bucket key) w))))).
      { intros fuel'.
        apply (get_output_retry urlparse World handler output_location fuel' w e Hr Hk). }
      assert (Hnext : exists rest,
                 trace (run handler (5 + fuel) (get_output urlparse output_location) w)
                 = ObsRead bucket key (inl e) :: ObsPrint "waiting for output..."
                   :: ObsSleep 2 :: rest
                 /\ 0 < reads rest).
      { change (5 + fuel) with (4 + S fuel). rewrite Hretry.
        rewrite get_output_unfold. unfold get_output_attempt.
        rewrite run_call_then, then_run_after. unfold after.
        cbn [trace app]. eexists. split; [reflexivity|].
        unfold reads. cbn [observed List.filter is_read length]. lia. }
      destruct Hnext as (rest & Htr & Hrest).
      split; [intros message _; apply Hretry|].
      split; [intros e' [= <-] Hno; exfalso; exact (Hno message0 He)|].
      split; [intros content [=]|].
      rewrite Htr. unfold sleeps, reads in *.
      cbn [List.filter is_sleep is_read length].
      split; (split; [intros _; exists message0; rewrite He; reflexivity | intros _; lia]).
    + pose proof (get_output_fatal urlparse World handler output_location
                    (4 + fuel) w e Hr Hk) as Hlong.
      split.
      { intros message [= He]. exfalso. rewrite He in Hk. discriminate Hk. }
      split.
      { intros e' [= <-] _.
        apply (get_output_fatal urlparse World handler output_location fuel w e Hr Hk). }
      split; [intros content [=]|].
      change (5 + fuel) with (S (4 + fuel)). rewrite Hlong.
      cbn [trace]. unfold sleeps, reads. cbn [List.filter is_sleep is_read length].
      split; (split; [intros H; exfalso; lia|]);
        intros [message [= He]]; exfalso; rewrite He in Hk; discriminate Hk.
  - pose proof (get_output_found urlparse World handler output_location
                  (4 + fuel) w content Hr) as Hlong.
    split; [intros message [=]|].
    split; [intros e [=]|].
    split.
    { intros content' [= <-].
      apply (get_output_found urlparse World handler output_location fuel w content Hr). }
    change (5 + fuel) with (S (4 + fuel)). rewrite Hlong.
    cbn [trace]. unfold sleeps, reads. cbn [List.filter is_sleep is_read length].
    split; (split; [intros H; exfalso; lia | intros [message [=]]]).
Qed.

(** C2: get_output returns the content at the first read that finds the
    object, after exactly as many retries as reads found nothing before
    it; when every read finds nothing, get_output never ends, whatever
    the number of steps it is given. *)
Theorem get_output_returns_when_present_else_never (output_location : string)
  (w : World) :
  let bucket := netloc (urlparse output_location) in
  let key := slice_from_1 (path (urlparse output_location)) in
  (forall (n : nat) (content : string),
      (forall i, i < n ->
         not_found_at handler bucket key (after_retries handler bucket key i w) = true) ->
      read_answer handler bucket key (after_retries handler bucket key n w)
      = inr content ->
      ends handler (get_output urlparse output_location) w (Returned content)
        (snd (handler _ (ReadS3File bucket key)
                (after_retries handler bucket key n w)))
        (waiting_trace handler bucket key n w
           ++ [ObsRead bucket key (inr content)]))
  /\
  ((forall i,
       not_found_at handler bucket key (after_retries handler bucket key i w) = true) ->
   diverges handler (get_output urlparse output_location) w).
Proof.
  cbn zeta. split.
  - intros n content Hwait Hfound. exists (4 * n + 1), 0.
    rewrite (poll_after_retries urlparse World handler output_location n w 1 Hwait).
    rewrite (get_output_found urlparse World handler output_location 0 _ content Hfound).
    reflexivity.
  - intros Hnever fuel.
    apply (poll_never urlparse World handler output_location fuel w Hnever).
Qed.

(** C9: when urlparse gives the location the network location B and the
    path "/P", every read get_output makes is of bucket B at key P (the
    path without its leading slash), and the first thing it does is such
    a read. *)
Theorem get_output_reads_netloc_and_path (output_location B P : string) :
  netloc (urlparse output_location) = B ->
  path (urlparse output_location) = ("/" ++ P)%string ->
  (forall fuel w,
      Forall (poll_obs B P)
        (trace (run handler fuel (get_output urlparse output_location) w))) /\
  (forall fuel w,
      hd_error (trace (run handler (S fuel) (get_output urlparse output_location) w))
      = Some (ObsRead B P (fst (handler _ (ReadS3File B P) w)))).
Proof.
  intros HB HP.
  assert (HK : slice_from_1 (path (urlparse output_location)) = P)
    by (rewrite HP; reflexivity).
  split.
  - intros fuel w.
    pose proof (poll_only_obs urlparse World handler output_location fuel w) as H.
    cbn beta in H. rewrite HB, HK in H. exact H.
  - intros fuel w. rewrite get_output_unfold. unfold get_output_attempt.
    rewrite run_call_then, then_run_after, HB, HK. reflexivity.
Qed.

End PollerClaims.

(* ------------------------------------------------------------------ *)
(** * The Request Submitter *)

Section Locators.

Lemma append_assoc (s1 s2 s3 : string) :
  ((s1 ++ s2) ++ s3 = s1 ++ (s2 ++ s3))%string.
Proof.
  induction s1 as [|a s1 IH]; [reflexivity|].
  change (String a ((s1 ++ s2) ++ s3) = String a (s1 ++ (s2 ++ s3)))%string.
  rewrite IH. reflexivity.
Qed.

Lemma append_inv_head (s a b : string) : (s ++ a = s ++ b)%string -> a = b.
Proof.
  induction s as [|c s IH]; [exact (fun H => H)|].
  change (String c (s ++ a) = String c (s ++ b) -> a = b)%string.
  intros [= H]. exact (IH H).
Qed.

(** Nothing under the configured output path is the input location: past
    the common "s3://bucket/prefix/", one goes on with "output" and the
    other with "input". *)
Lemma output_path_excludes_input (s3_bucket out : string) :
  under (S3OutputPath s3_bucket) out -> out <> input_s3_location s3_bucket.
Proof.
  intros [rest ->] H. unfold S3OutputPath, input_s3_location in H.
  rewrite !append_assoc in H.
  do 4 apply append_inv_head in H.
  cbv [String.append] in H. discriminate H.
Qed.

End Locators.

Section SubmitterClaims.

Variable s3_bucket : string.
Variable endpoint_name : string.
Variable World : Type.
Variable handler : forall T : Type, awsE T -> World -> T * World.

(** C8: when the service accepts the submission of input_s3_location and
    answers with a location under the configured S3OutputPath, the
    submitter returns that location, and it differs from the input
    location it submitted. *)
Theorem submitter_output_differs_from_input (w : World)
  (response : InvokeResponse) (fuel : nat) :
  fst (handler _ (InvokeEndpointAsync endpoint_name
                    (input_s3_location s3_bucket) "application/json") w)
  = inr response ->
  under (S3OutputPath s3_bucket) (OutputLocation response) ->
  run handler (S fuel) (invoke_once s3_bucket endpoint_name) w =
  Snap (Some (Returned (OutputLocation response)))
    (snd (handler _ (InvokeEndpointAsync endpoint_name
                       (input_s3_location s3_bucket) "application/json") w))
    [ObsInvoke endpoint_name (input_s3_location s3_bucket) "application/json"
       (inr response)] fuel
  /\ OutputLocation response <> input_s3_location s3_bucket.
Proof.
  intros Hr Hunder. split; [|apply output_path_excludes_input; exact Hunder].
  unfold invoke_once, call_or_raise.
  rewrite run_bind, run_call_then, Hr, run_ret.
  unfold then_run, after. cbn [status trace world fuel_left observed app].
  rewrite run_ret. reflexivity.
Qed.

End SubmitterClaims.

(* ------------------------------------------------------------------ *)
(** * The Batch Coordinator *)

Section Contents.

Variable s3_bucket : string.
Variable endpoint_name : string.
Variable urlparse : string -> ParseResult.

Lemma retrieved_app (tr1 tr2 : list obs) :
  retrieved (tr1 ++ tr2) = retrieved tr1 ++ retrieved tr2.
Proof.
  induction tr1 as [|o tr1 IH]; [reflexivity|].
  destruct o as [| b k [e|c] | | | | |]; cbn [app retrieved]; rewrite IH; reflexivity.
Qed.

Lemma retrieved_submit_trace (items : list (Z * InvokeResponse)) :
  retrieved (submit_trace s3_bucket endpoint_name items) = [].
Proof. induction items as [|item items IH]; [reflexivity | exact IH]. Qed.

Lemma retrieved_poll_trace bucket key content tr :
  poll_trace bucket key content tr -> retrieved tr = [content].
Proof. induction 1 as [|e tr Hk Hp IH]; [reflexivity | exact IH]. Qed.

Lemma retrieved_collect_trace record contents tr :
  collect_trace urlparse record contents tr ->
  retrieved tr = contents /\ length contents = length record.
Proof.
  induction 1 as [|i o c trp rest cs tr Hp Hc [IH1 IH2]]; [auto|].
  rewrite retrieved_app, (retrieved_poll_trace _ _ _ _ Hp). cbn [retrieved app length].
  rewrite IH1, IH2. auto.
Qed.

(** The collection loop taken round by round: each entry of the record
    has its poll, which brought back one content, and then its line. *)
Lemma collect_trace_rounds record contents tr :
  collect_trace urlparse record contents tr ->
  exists rounds : list (string * list obs),
    tr = flat_map (fun er : (string * string) * (string * list obs) =>
           snd (snd er)
           ++ [ObsPrint ("Input File: " ++ fst (fst er)
                         ++ ", Output location: " ++ snd (fst er))])
           (combine record rounds) /\
    Forall2 (fun (entry : string * string) (round : string * list obs) =>
               poll_trace (netloc (urlparse (snd entry)))
                 (slice_from_1 (path (urlparse (snd entry))))
                 (fst round) (snd round))
      record rounds /\
    contents = map fst rounds.
Proof.
  induction 1 as [|i o c trp rest cs tr Hp Hc (rounds & Htr & Hall & Hcs)].
  - exists []. split; [reflexivity|]. split; [constructor | reflexivity].
  - exists ((c, trp) :: rounds).
    split; [|split; [constructor; [exact Hp | exact Hall] | rewrite Hcs; reflexivity]].
    cbn [combine flat_map fst snd]. rewrite <- Htr, <- app_assoc. reflexivity.
Qed.

(** A record whose entries all carry the key [k] fills the mapping with
    that one key, bound to the last content. *)
Lemma result_mapping_fold (k : string) (record : list (string * string)) :
  forall (contents : list string) (m : gmap string string),
    Forall (fun entry => fst entry = k) record ->
    length contents = length record ->
    fold_left (fun m '((input_file, _), content) => <[input_file := content]> m)
      (combine record contents) m
    = match last contents with
      | Some content => <[k := content]> m
      | None => m
      end.
Proof.
  induction record as [|[i o] record IH]; intros contents m Hk Hlen.
  - destruct contents; [reflexivity | discriminate].
  - destruct contents as [|c contents]; [discriminate|].
    pose proof (List.Forall_inv Hk) as Hi. pose proof (List.Forall_inv_tail Hk) as Hk'.
    cbn in Hi. subst i.
    cbn [combine fold_left]. rewrite IH; [|exact Hk'|cbn in Hlen; lia].
    rewrite last_cons. destruct (last contents); [|reflexivity].
    apply insert_insert_eq.
Qed.

End Contents.

Section CoordinatorClaims.

Variable s3_bucket : string.
Variable endpoint_name : string.
Variable urlparse : string -> ParseResult.
Variable World : Type.
Variable handler : forall T : Type, awsE T -> World -> T * World.

Abbreviation cell := (batch s3_bucket endpoint_name urlparse).

(** C4: in whatever environment a batch cell runs to its end, its record
    holds one entry per accepted submission, in the order the
    submissions were made, and the collection loop then polls the
    entries of the record in that same order, reporting each after its
    poll; nothing in this depends on when the service finishes which
    request. *)
Theorem batch_record_in_submission_order (n : Z) (fuel : nat) (w : World)
  (vars : BatchVars) :
  status (run handler fuel (cell n) w) = Some (Returned vars) ->
  exists items contents tr_c,
    inferences vars = map (entry_of s3_bucket) items /\
    trace (run handler fuel (cell n) w)
    = submit_trace s3_bucket endpoint_name items
      ++ ObsPrint batch_header :: tr_c /\
    collect_trace urlparse (inferences vars) contents tr_c.
Proof.
  intros H.
  destruct (batch_returned s3_bucket endpoint_name urlparse World handler
              n fuel w vars H)
    as (items & contents & tr_c & _ & Hrec & Htr & Hc & _).
  exists items, contents, tr_c. auto.
Qed.

(** C5: at every step of a batch cell, if an unrecovered error has been
    observed (a rejected submission, or a read that failed with anything
    but NoSuchKey), then it is the last thing observed and the cell has
    ended by raising that very error, so no record and no content is
    returned; when the error came from a submission, no read was made
    before it either: nothing submitted earlier is polled. *)
Theorem batch_aborts_on_first_error (n : Z) (fuel : nat) (w : World)
  (tr1 : list obs) (o : obs) (tr2 : list obs) (e : exn) :
  trace (run handler fuel (cell n) w) = tr1 ++ o :: tr2 ->
  unrecovered o = Some e ->
  status (run handler fuel (cell n) w) = Some (Raised e) /\
  tr2 = [] /\
  (is_invoke o = true -> Forall (fun o' => is_read o' = false) tr1).
Proof.
  intros Htr Ho.
  pose proof (batch_always_guarded s3_bucket endpoint_name urlparse
                World handler n fuel w) as G.
  rewrite Htr in G.
  destruct (guarded_error_is_last _ _ _ _ _ G Ho) as [Hfail ->].
  split; [|split; [reflexivity|]].
  - unfold failure in Hfail.
    destruct (status (run handler fuel (cell n) w)) as [[vars|e']|];
      congruence.
  - intros Hinv.
    destruct (batch_phases s3_bucket endpoint_name urlparse World handler
                n fuel w) as (tr_s & tr_c & Hsplit & Hs & Hc).
    rewrite Htr in Hsplit.
    destruct tr_c as [|x tr_c _] using rev_ind.
    + rewrite app_nil_r in Hsplit. subst tr_s.
      apply Forall_app in Hs. tauto.
    + exfalso. rewrite app_assoc in Hsplit.
      apply app_inj_tail in Hsplit. destruct Hsplit as [_ <-].
      apply Forall_app in Hc. destruct Hc as [_ Hc].
      pose proof (List.Forall_inv Hc) as Hx. cbn beta in Hx. congruence.
Qed.


(** C10: every entry of the record of a batch cell that ran to its end
    has input_s3_location as its first component; the record has n - 1
    entries for range(1, n), so for both cells (n = 10, n = 1000) a
    mapping keyed by input reference filled from it has exactly that one
    key, bound to the content of the last entry. *)
Theorem batch_record_shares_one_input (n : Z) (fuel : nat) (w : World)
  (vars : BatchVars) :
  status (run handler fuel (cell n) w) = Some (Returned vars) ->
  Forall (fun entry => fst entry = input_s3_location s3_bucket)
    (inferences vars) /\
  length (inferences vars) = Z.to_nat (n - 1) /\
  ((2 <= n)%Z ->
   forall contents : list string,
     length contents = length (inferences vars) ->
     dom (result_mapping (inferences vars) contents)
     = {[ input_s3_location s3_bucket ]} /\
     result_mapping (inferences vars) contents !! input_s3_location s3_bucket
     = last contents).
Proof.
  intros H.
  destruct (batch_returned s3_bucket endpoint_name urlparse World handler
              n fuel w vars H)
    as (items & _ & _ & Hlen & Hrec & _).
  assert (Hkeys : Forall (fun entry => fst entry = input_s3_location s3_bucket)
                    (inferences vars)).
  { rewrite Hrec. clear.
    induction items as [|item items IH]; constructor; [reflexivity | exact IH]. }
  assert (Hsize : length (inferences vars) = Z.to_nat (n - 1)).
  { rewrite Hrec, length_map. exact Hlen. }
  split; [exact Hkeys|]. split; [exact Hsize|].
  intros Hn contents Hc. unfold result_mapping.
  rewrite (result_mapping_fold (input_s3_location s3_bucket)
             (inferences vars) contents ∅ Hkeys Hc).
  destruct (last contents) as [content|] eqn:Hlast.
  - split; [|apply lookup_insert_eq].
    rewrite insert_empty. apply dom_singleton_L.
  - exfalso. destruct contents as [|c contents]; [cbn in Hc; lia|].
    rewrite last_cons in Hlast. destruct (last contents); discriminate.
Qed.

End CoordinatorClaims.

(* ------------------------------------------------------------------ *)
(** * Polling and the storage *)

Section Waiting.

Variable World : Type.
Variable handler : forall T : Type, awsE T -> World -> T * World.
Variable bucket key : string.

Lemma waiting_trace_reads n : forall w,
  length (List.filter is_read (waiting_trace handler bucket key n w)) = n.
Proof.
  induction n as [|n IH]; intros w; [reflexivity|].
  cbn [waiting_trace app List.filter is_read length]. rewrite IH. reflexivity.
Qed.

Lemma waiting_trace_writes_nothing n : forall w,
  Forall (fun o => is_write o = false) (waiting_trace handler bucket key n w).
Proof.
  induction n as [|n IH]; intros w; [constructor|].
  cbn [waiting_trace app]. repeat (constructor; [reflexivity|]). apply IH.
Qed.

End Waiting.

Section StorageClaims.

Import Cloud.

Variable s3_bucket : string.
Variable urlparse : string -> ParseResult.

Abbreviation h := (Cloud.handler s3_bucket).

(** ** The storage while the notebook polls, and while it does not *)

Lemma backend_say line w : backend (say line w) = backend w.
Proof. reflexivity. Qed.

Lemma backend_tick secs w w' :
  backend w = backend w' -> backend (tick secs w) = backend (tick secs w').
Proof.
  destruct w as [objs clk js pl sv dn out dk].
  destruct w' as [objs' clk' js' pl' sv' dn' out' dk'].
  unfold backend. cbn. intros [= -> -> -> -> -> -> ->]. reflexivity.
Qed.

Lemma backend_left_alone n : forall w w',
  backend w = backend w' -> backend (left_alone n w) = backend (left_alone n w').
Proof.
  induction n as [|n IH]; intros w w' H; cbn [left_alone]; [exact H|].
  apply IH, backend_tick, H.
Qed.

(** Retries leave the storage and the service as they would be had the
    notebook done nothing for as long. *)
Lemma backend_after_retries bucket key n : forall w,
  backend (after_retries h bucket key n w) = backend (left_alone n w).
Proof.
  induction n as [|n IH]; intros w; cbn [after_retries left_alone]; [reflexivity|].
  rewrite IH. apply backend_left_alone.
  unfold retry_world, wait_world. cbn [handler snd].
  rewrite CloudFacts.read_keeps_world.
  apply backend_tick, backend_say.
Qed.

Lemma backend_objects w w' : backend w = backend w' -> objects w = objects w'.
Proof. intros H. exact (f_equal objects H). Qed.

Lemma backend_denied w w' : backend w = backend w' -> denied w = denied w'.
Proof. intros H. exact (f_equal denied H). Qed.

Lemma left_alone_denied n : forall w, denied (left_alone n w) = denied w.
Proof.
  induction n as [|n IH]; intros w; cbn [left_alone]; [reflexivity|].
  rewrite IH. reflexivity.
Qed.

Lemma filter_none {A : Type} (f : A -> bool) (l : list A) :
  (forall x, In x l -> f x = false) -> List.filter f l = [].
Proof.
  induction l as [|x l IH]; intros H; [reflexivity|].
  cbn [List.filter]. rewrite (H x (or_introl eq_refl)).
  apply IH. intros y Hy. apply H. right. exact Hy.
Qed.

Lemma filter_all {A : Type} (f : A -> bool) (l : list A) :
  (forall x, In x l -> f x = true) -> List.filter f l = l.
Proof.
  induction l as [|x l IH]; intros H; [reflexivity|].
  cbn [List.filter]. rewrite (H x (or_introl eq_refl)). f_equal.
  apply IH. intros y Hy. apply H. right. exact Hy.
Qed.

(** While no job falls due, the service writes nothing. *)
Lemma left_alone_none_due n : forall w,
  (forall j, In j (jobs w) -> (clock w + 2 * Z.of_nat n < due j)%Z) ->
  objects (left_alone n w) = objects w.
Proof.
  induction n as [|n IH]; intros w H; cbn [left_alone]; [reflexivity|].
  assert (Hlate : forall j, In j (jobs w) -> (due j <=? clock w + 2)%Z = false).
  { intros j Hj. apply Z.leb_gt. specialize (H j Hj). lia. }
  assert (Hjobs : jobs (tick 2 w) = jobs w).
  { unfold tick, settle. cbn [jobs clock]. apply filter_all.
    intros j Hj. rewrite (Hlate j Hj). reflexivity. }
  assert (Hobjs : objects (tick 2 w) = objects w).
  { unfold tick, settle. cbn [objects jobs clock].
    rewrite (filter_none _ _ Hlate). reflexivity. }
  rewrite IH; [exact Hobjs|].
  intros j Hj. rewrite Hjobs in Hj. specialize (H j Hj).
  change (clock (tick 2 w)) with (clock w + 2)%Z. lia.
Qed.

(** C7: in the reference environment, whatever the storage holds and
    whatever requests are in flight, [n] polls made while the object is
    not there yet end with the poller still waiting, having made [n]
    reads, no write and no submission.  They leave the storage and the
    service exactly as [n] waits of 2 without any poll would have left
    them: what has changed is what the service wrote by itself; while
    no job falls due, nothing has changed at all.  The poller keeps
    nothing from them: the rest of its run is a fresh poll from the
    world they left.  And once the object is there, for someone who
    only waited, with some content, the poll returns that content at
    its next read, whatever [n] was. *)
Theorem polling_is_read_only (output_location : string) (w : Cloud.World)
  (n : nat) :
  let bucket := netloc (urlparse output_location) in
  let key := slice_from_1 (path (urlparse output_location)) in
  let poll := get_output urlparse output_location in
  let s := run h (4 * n) poll w in
  (bucket, key) ∉ denied w ->
  (forall i, i < n -> objects (left_alone i w) !! (bucket, key) = None) ->
  status s = None /\
  length (List.filter is_read (trace s)) = n /\
  Forall (fun o => is_write o = false /\ is_invoke o = false) (trace s) /\
  backend (world s) = backend (left_alone n w) /\
  ((forall j, In j (jobs w) -> (clock w + 2 * Z.of_nat n < due j)%Z) ->
   objects (world s) = objects w) /\
  (forall fuel,
      run h (4 * n + fuel) poll w = after (trace s) (run h fuel poll (world s))) /\
  (forall content fuel,
      objects (left_alone n w) !! (bucket, key) = Some content ->
      run h (4 * n + S fuel) poll w
      = after (trace s)
          (Snap (Some (Returned content)) (world s)
             [ObsRead bucket key (inr content)] fuel)).
Proof.
  cbn zeta. intros Hok Hnone.
  set (bucket := netloc (urlparse output_location)) in *.
  set (key := slice_from_1 (path (urlparse output_location))) in *.
  assert (Hden : forall i, (bucket, key) ∉ denied (after_retries h bucket key i w)).
  { intros i.
    rewrite (backend_denied _ _ (backend_after_retries bucket key i w)).
    rewrite left_alone_denied. exact Hok. }
  assert (Hwait : forall i, i < n ->
            not_found_at h bucket key (after_retries h bucket key i w) = true).
  { intros i Hi. unfold not_found_at, read_answer. cbn [handler].
    rewrite (CloudFacts.read_absent bucket key _); [reflexivity| |apply Hden].
    rewrite (backend_objects _ _ (backend_after_retries bucket key i w)).
    apply Hnone. exact Hi. }
  pose proof (poll_after_retries urlparse Cloud.World h output_location n w) as Hrun.
  fold bucket key in Hrun.
  pose proof (Hrun 0 Hwait) as Hrun0. rewrite Nat.add_0_r in Hrun0.
  pose proof (poll_only_obs urlparse Cloud.World h output_location (4 * n) w)
    as Honly.
  cbn beta in Honly. fold bucket key in Honly.
  rewrite Hrun0 in *. rewrite get_output_zero in *.
  unfold after in *. cbn [status trace world fuel_left] in *.
  rewrite app_nil_r in *.
  split; [reflexivity|]. split; [apply waiting_trace_reads|].
  split.
  { revert Honly. apply List.Forall_impl.
    intros o Ho. destruct o; cbn in Ho; try contradiction; split; reflexivity. }
  split; [apply backend_after_retries|].
  split.
  { intros Hlate.
    rewrite (backend_objects _ _ (backend_after_retries bucket key n w)).
    apply left_alone_none_due. exact Hlate. }
  split.
  { intros fuel. rewrite (Hrun fuel Hwait). reflexivity. }
  intros content fuel Hthere.
  rewrite (Hrun (S fuel) Hwait).
  assert (Hread : read bucket key (after_retries h bucket key n w)
                  = (inr content, after_retries h bucket key n w)).
  { apply CloudFacts.read_present; [|apply Hden].
    rewrite (backend_objects _ _ (backend_after_retries bucket key n w)).
    exact Hthere. }
  rewrite (get_output_found urlparse Cloud.World h output_location fuel _ content).
  - fold bucket key. cbn [handler]. rewrite Hread. reflexivity.
  - fold bucket key. cbn [handler]. rewrite Hread. reflexivity.
Qed.

End StorageClaims.

(* ------------------------------------------------------------------ *)
(** * The claims on concrete sessions *)

Section Sessions.

Import Demo.

Lemma fresh_idle (plan : list (exn + Z * string)) (bucket key : string) :
  Cloud.idle bucket key (fresh plan).
Proof.
  split; [apply lookup_empty|]. split; [reflexivity|]. apply not_elem_of_empty.
Qed.

(** C3 (the code falls short of it): the cell announced as triggering 10
    requests loops over range(1,10); in a session where ten invocations
    would be accepted it runs to its end with a record of 9 entries,
    having made 9 submissions and collected 9 contents, the outputs all
    distinct, and one acceptable invocation never made. *)
Theorem batch_of_ten_submits_nine :
  status first_cell = Some (Returned first_cell_vars) /\
  length (inferences first_cell_vars) = 9 /\
  NoDup (map snd (inferences first_cell_vars)) /\
  length (submissions (trace first_cell)) = 9 /\
  length (retrieved (trace first_cell)) = 9 /\
  length (Cloud.plan (world first_cell)) = 1.
Proof.
  split; [vm_compute; reflexivity|]. split; [reflexivity|].
  split; [apply (bool_decide_unpack (NoDup (map snd (inferences first_cell_vars))));
          vm_compute; exact I|].
  split; [vm_compute; reflexivity|]. split; vm_compute; reflexivity.
Qed.


Lemma get_output_retry_policy_witness :
  fst (Cloud.handler s3_bucket (ReadS3File first_bucket first_key) one_pending)
  = inl (ClientError "NoSuchKey" "The specified key does not exist.") /\
  run (Cloud.handler s3_bucket) (4 + 1)
    (get_output Cloud.urlparse first_output) one_pending
  = after
      [ObsRead first_bucket first_key
         (fst (Cloud.handler s3_bucket (ReadS3File first_bucket first_key)
                 one_pending));
       ObsPrint "waiting for output..."; ObsSleep 2]
      (run (Cloud.handler s3_bucket) 1
         (get_output Cloud.urlparse first_output)
         (wait_world (Cloud.handler s3_bucket)
            (snd (Cloud.handler s3_bucket
                    (ReadS3File first_bucket first_key) one_pending)))) /\
  fst (Cloud.handler s3_bucket (ReadS3File first_bucket first_key)
         MoreDemo.locked)
  = inl (ClientError "AccessDenied" "Access Denied") /\
  run (Cloud.handler s3_bucket) (1 + 1)
    (get_output Cloud.urlparse first_output) MoreDemo.locked
  = Snap (Some (Raised (ClientError "AccessDenied" "Access Denied")))
      (snd (Cloud.handler s3_bucket (ReadS3File first_bucket first_key)
              MoreDemo.locked))
      [ObsRead first_bucket first_key
         (fst (Cloud.handler s3_bucket (ReadS3File first_bucket first_key)
                 MoreDemo.locked))] 1.
Proof.
  assert (H1 : fst (Cloud.handler s3_bucket (ReadS3File first_bucket first_key)
                      one_pending)
               = inl (ClientError "NoSuchKey" "The specified key does not exist."))
    by (vm_compute; reflexivity).
  assert (H2 : fst (Cloud.handler s3_bucket (ReadS3File first_bucket first_key)
                      MoreDemo.locked)
               = inl (ClientError "AccessDenied" "Access Denied"))
    by (vm_compute; reflexivity).
  split; [exact H1|].
  split.
  { exact (proj1 (get_output_retry_policy Cloud.urlparse Cloud.World
                    (Cloud.handler s3_bucket) first_output one_pending 1)
             "The specified key does not exist." H1). }
  split; [exact H2|].
  exact (proj1 (proj2 (get_output_retry_policy Cloud.urlparse Cloud.World
                         (Cloud.handler s3_bucket) first_output MoreDemo.locked 1))
           (ClientError "AccessDenied" "Access Denied") H2
           ltac:(intros message; discriminate)).
Defined.

Lemma get_output_returns_when_present_else_never_witness :
  ends handler (get_output Cloud.urlparse first_output) one_pending
    (Returned "summary 0")
    (snd (handler (ReadS3File first_bucket first_key)
            (after_retries handler first_bucket first_key 2 one_pending)))
    (waiting_trace handler first_bucket first_key 2 one_pending
       ++ [ObsRead first_bucket first_key (inr "summary 0")])
  /\ diverges handler (get_output Cloud.urlparse first_output) (fresh []).
Proof.
  split.
  - apply (proj1 (get_output_returns_when_present_else_never
                    Cloud.urlparse Cloud.World handler first_output one_pending)
             2 "summary 0").
    + intros i Hi.
      destruct i as [|[|i]]; [vm_compute; reflexivity | vm_compute; reflexivity | lia].
    + vm_compute. reflexivity.
  - apply (proj2 (get_output_returns_when_present_else_never
                    Cloud.urlparse Cloud.World handler first_output (fresh []))).
    intros i. apply CloudFacts.idle_not_found.
    apply CloudFacts.after_retries_idle. apply fresh_idle.
Defined.

Lemma get_output_reads_netloc_and_path_witness :
  netloc (Cloud.urlparse first_output) = "sagemaker-demo" /\
  path (Cloud.urlparse first_output)
  = ("/" ++ "async-inference-demo/output/0.out")%string /\
  hd_error (trace (run handler 1 (get_output Cloud.urlparse first_output)
                     one_pending))
  = Some (ObsRead "sagemaker-demo" "async-inference-demo/output/0.out"
            (fst (handler (ReadS3File "sagemaker-demo"
                               "async-inference-demo/output/0.out")
                    one_pending))).
Proof.
  split; [vm_compute; reflexivity|]. split; [vm_compute; reflexivity|].
  apply (proj2 (get_output_reads_netloc_and_path Cloud.urlparse Cloud.World
                  handler first_output "sagemaker-demo"
                  "async-inference-demo/output/0.out"
                  ltac:(vm_compute; reflexivity) ltac:(vm_compute; reflexivity))
           0 one_pending).
Defined.

Lemma submitter_output_differs_from_input_witness :
  under (S3OutputPath s3_bucket) (OutputLocation first_response) /\
  OutputLocation first_response <> input_s3_location s3_bucket.
Proof.
  assert (Hunder : under (S3OutputPath s3_bucket) (OutputLocation first_response)).
  { exists "/0.out"%string. vm_compute. reflexivity. }
  split; [exact Hunder|].
  apply (proj2 (submitter_output_differs_from_input s3_bucket endpoint_name
                  Cloud.World handler (fresh ten_accepted) first_response 0
                  ltac:(vm_compute; reflexivity) Hunder)).
Defined.

Lemma batch_record_in_submission_order_witness :
  status first_cell = Some (Returned first_cell_vars) /\
  exists items contents tr_c,
    inferences first_cell_vars = map (entry_of s3_bucket) items /\
    trace first_cell
    = submit_trace s3_bucket endpoint_name items
      ++ ObsPrint batch_header :: tr_c /\
    collect_trace Cloud.urlparse (inferences first_cell_vars) contents tr_c.
Proof.
  assert (H : status first_cell = Some (Returned first_cell_vars))
    by (vm_compute; reflexivity).
  split; [exact H|].
  exact (batch_record_in_submission_order s3_bucket endpoint_name
           Cloud.urlparse Cloud.World handler 10 200 (fresh ten_accepted)
           first_cell_vars H).
Defined.

Lemma batch_aborts_on_first_error_witness :
  trace rejected_cell = before_rejection ++ rejected_call :: [] /\
  unrecovered rejected_call = Some throttled /\
  status rejected_cell = Some (Raised throttled) /\
  (is_invoke rejected_call = true ->
   Forall (fun o' => is_read o' = false) before_rejection).
Proof.
  assert (H : trace rejected_cell = before_rejection ++ rejected_call :: [])
    by (vm_compute; reflexivity).
  split; [exact H|]. split; [reflexivity|].
  pose proof (batch_aborts_on_first_error s3_bucket endpoint_name
                Cloud.urlparse Cloud.World handler 10 200 (fresh third_rejected)
                before_rejection rejected_call [] throttled H eq_refl) as W.
  split; [exact (proj1 W) | exact (proj2 (proj2 W))].
Defined.


Lemma batch_record_shares_one_input_witness :
  status first_cell = Some (Returned first_cell_vars) /\
  Forall (fun entry => fst entry = input_s3_location s3_bucket)
    (inferences first_cell_vars) /\
  length (inferences first_cell_vars) = Z.to_nat (10 - 1).
Proof.
  assert (H : status first_cell = Some (Returned first_cell_vars))
    by (vm_compute; reflexivity).
  split; [exact H|].
  pose proof (batch_record_shares_one_input s3_bucket endpoint_name
                Cloud.urlparse Cloud.World handler 10 200 (fresh ten_accepted)
                first_cell_vars H) as W.
  split; [exact (proj1 W) | exact (proj1 (proj2 W))].
Defined.

Lemma polling_is_read_only_witness :
  ((first_bucket, first_key) ∉ Cloud.denied one_pending) /\
  (forall i, i < 2 ->
     Cloud.objects (Cloud.left_alone i one_pending) !! (first_bucket, first_key)
     = None) /\
  Cloud.jobs one_pending <> [] /\
  status (run (Cloud.handler s3_bucket) (4 * 2)
            (get_output Cloud.urlparse first_output) one_pending) = None /\
  Cloud.backend
    (world (run (Cloud.handler s3_bucket) (4 * 2)
              (get_output Cloud.urlparse first_output) one_pending))
  = Cloud.backend (Cloud.left_alone 2 one_pending) /\
  run (Cloud.handler s3_bucket) (4 * 2 + 1)
    (get_output Cloud.urlparse first_output) one_pending
  = after
      (trace (run (Cloud.handler s3_bucket) (4 * 2)
                (get_output Cloud.urlparse first_output) one_pending))
      (Snap (Some (Returned "summary 0"))
         (world (run (Cloud.handler s3_bucket) (4 * 2)
                   (get_output Cloud.urlparse first_output) one_pending))
         [ObsRead first_bucket first_key (inr "summary 0")] 0).
Proof.
  assert (Hok : (first_bucket, first_key) ∉ Cloud.denied one_pending).
  { replace (Cloud.denied one_pending) with (∅ : gset (string * string))
      by (vm_compute; reflexivity).
    apply not_elem_of_empty. }
  assert (Hnone : forall i, i < 2 ->
            Cloud.objects (Cloud.left_alone i one_pending)
              !! (first_bucket, first_key) = None).
  { intros i Hi.
    destruct i as [|[|i]]; [vm_compute; reflexivity | vm_compute; reflexivity | lia]. }
  assert (Hthere : Cloud.objects (Cloud.left_alone 2 one_pending)
                     !! (first_bucket, first_key) = Some "summary 0")
    by (vm_compute; reflexivity).
  pose proof (polling_is_read_only s3_bucket Cloud.urlparse first_output
                one_pending 2 Hok Hnone) as W.
  split; [exact Hok|]. split; [exact Hnone|].
  split; [vm_compute; discriminate|].
  split; [exact (proj1 W)|].
  split; [exact (proj1 (proj2 (proj2 (proj2 W))))|].
  exact (proj2 (proj2 (proj2 (proj2 (proj2 (proj2 W))))) "summary 0" 0 Hthere).
Defined.

End Sessions.

(* ------------------------------------------------------------------ *)
(** * Runs that end, put together *)

Section EndsFacts.

Variable World : Type.
Variable handler : forall T : Type, awsE T -> World -> T * World.

Abbreviation run := (run handler).
Abbreviation ends := (ends handler).

Lemma ends_ret {R : Type} (r : R) w : ends (Ret r) w (Returned r) w [].
Proof. exists 0, 0. apply run_ret. Qed.

Lemma ends_call {T : Type} (ev : awsE T) w :
  ends (call ev) w (Returned (fst (handler _ ev w))) (snd (handler _ ev w))
    [observed ev (fst (handler _ ev w))].
Proof. exists 1, 0. apply run_call. Qed.

Lemma ends_bind {R U : Type} (t : py R) (k : R -> py U) w r w1 tr1 o w2 tr2 :
  ends t w (Returned r) w1 tr1 -> ends (k r) w1 o w2 tr2 ->
  ends (ITree.bind t k) w o w2 (tr1 ++ tr2).
Proof.
  intros (f1 & l1 & H1) (f2 & l2 & H2). exists (f1 + f2), (l2 + l1).
  rewrite run_bind.
  rewrite (run_more World handler f1 t w (Returned r) f2) by (rewrite H1; reflexivity).
  rewrite H1. unfold then_run. cbn [status trace world fuel_left].
  rewrite Nat.add_comm.
  rewrite (run_more World handler f2 (k r) w1 o l1) by (rewrite H2; reflexivity).
  rewrite H2. reflexivity.
Qed.

Lemma ends_bind_raised {R U : Type} (t : py R) (k : R -> py U) w e w1 tr1 :
  ends t w (Raised e) w1 tr1 -> ends (ITree.bind t k) w (Raised e) w1 tr1.
Proof.
  intros (f1 & l1 & H1). exists f1, l1. rewrite run_bind, H1. reflexivity.
Qed.

(** Two snapshots of one run that have both ended show the same end. *)
Lemma ended_agree {R : Type} (t : py R) w f1 f2 o1 o2 :
  status (run f1 t w) = Some o1 -> status (run f2 t w) = Some o2 ->
  o1 = o2 /\ world (run f1 t w) = world (run f2 t w) /\
  trace (run f1 t w) = trace (run f2 t w).
Proof.
  intros H1 H2.
  pose proof (run_more World handler f1 t w o1 f2 H1) as M1.
  pose proof (run_more World handler f2 t w o2 f1 H2) as M2.
  rewrite (Nat.add_comm f2 f1) in M2. rewrite M1 in M2.
  injection M2 as -> -> -> _. auto.
Qed.

End EndsFacts.

(* ------------------------------------------------------------------ *)
(** * The polling loop, step by step *)

Section PollingSteps.

Variable urlparse : string -> ParseResult.
Variable World : Type.
Variable handler : forall T : Type, awsE T -> World -> T * World.
Variable output_location : string.

Abbreviation run := (run handler).
Abbreviation poll := (get_output urlparse output_location).
Abbreviation bucket := (netloc (urlparse output_location)).
Abbreviation key := (slice_from_1 (path (urlparse output_location))).

(** A retry caught before its wait is over shows the part of it that
    has happened. *)
Lemma get_output_retry_prefix fuel w e :
  fst (handler _ (ReadS3File bucket key) w) = inl e ->
  is_no_such_key e = true -> fuel < 4 ->
  status (run fuel poll w) = None /\
  trace (run fuel poll w) = firstn fuel (retry_block bucket key e).
Proof.
  intros H Hk Hlt. rewrite get_output_unfold. unfold get_output_attempt.
  destruct fuel as [|[|[|[|fuel]]]]; [| | | |lia].
  - rewrite run_zero_call_then. split; reflexivity.
  - rewrite run_call_then, H, Hk, run_zero_call_then. split; reflexivity.
  - rewrite run_call_then, H, Hk, run_call_then, run_zero_call_then.
    split; reflexivity.
  - rewrite run_call_then, H, Hk, run_call_then, run_call_then, run_ret.
    split; reflexivity.
Qed.

(** At every step of a poll: every sleep is one of 2 seconds, a sleep
    only follows a read that found nothing, and no two reads are made
    without a sleep between them; a poll that has ended (returned or
    raised) has made exactly one read more than it has slept. *)
Theorem get_output_sleeps_between_reads fuel : forall w,
  let s := run fuel poll w in
  slept (trace s) = (2 * Z.of_nat (sleeps (trace s)))%Z /\
  sleeps (trace s) <= reads (trace s) <= S (sleeps (trace s)) /\
  (status s <> None -> reads (trace s) = S (sleeps (trace s))).
Proof.
  induction fuel as [fuel IH] using lt_wf_ind. intros w. cbn zeta.
  destruct fuel as [|fuel].
  { rewrite get_output_zero. cbn. split; [reflexivity|]. split; [lia|congruence]. }
  destruct (fst (handler _ (ReadS3File bucket key) w)) as [e|c] eqn:Hr.
  - destruct (is_no_such_key e) eqn:Hk.
    + destruct (Nat.lt_ge_cases (S fuel) 4) as [Hlt|Hge].
      * destruct (get_output_retry_prefix (S fuel) w e Hr Hk Hlt) as [Hst ->].
        rewrite Hst.
        destruct fuel as [|[|[|fuel]]]; [| | |lia]; cbn;
          (split; [reflexivity|]; split; [lia|congruence]).
      * replace (S fuel) with (4 + (fuel - 3)) by lia.
        rewrite (get_output_retry urlparse World handler output_location _ _ _ Hr Hk).
        unfold after; cbn [status trace].
        destruct (IH (fuel - 3) ltac:(lia)
                    (wait_world handler (snd (handler _ (ReadS3File bucket key) w))))
          as (Hs & Hb & Hf).
        unfold reads, sleeps in *. cbn [retry_block app List.filter is_read is_sleep slept length].
        split; [lia|]. split; [lia|]. intros Hne. specialize (Hf Hne). lia.
    + rewrite (get_output_fatal urlparse World handler output_location _ _ _ Hr Hk).
      cbn. split; [reflexivity|]. split; [lia|reflexivity].
  - rewrite (get_output_found urlparse World handler output_location _ _ _ Hr).
    cbn. split; [reflexivity|]. split; [lia|reflexivity].
Qed.

(** A poll brings back one content, when it returns; none before, and
    none when it raises. *)
Lemma poll_retrieved fuel : forall w,
  retrieved (trace (run fuel poll w))
  = match status (run fuel poll w) with
    | Some (Returned content) => [content]
    | _ => []
    end.
Proof.
  induction fuel as [fuel IH] using lt_wf_ind. intros w.
  destruct fuel as [|fuel]; [rewrite get_output_zero; reflexivity|].
  destruct (fst (handler _ (ReadS3File bucket key) w)) as [e|c] eqn:Hr.
  - destruct (is_no_such_key e) eqn:Hk.
    + destruct (Nat.lt_ge_cases (S fuel) 4) as [Hlt|Hge].
      * destruct (get_output_retry_prefix (S fuel) w e Hr Hk Hlt) as [Hst ->].
        rewrite Hst. destruct fuel as [|[|[|fuel]]]; [| | |lia]; reflexivity.
      * replace (S fuel) with (4 + (fuel - 3)) by lia.
        rewrite (get_output_retry urlparse World handler output_location _ _ _ Hr Hk).
        unfold after; cbn [status trace retry_block app retrieved].
        apply IH. lia.
    + rewrite (get_output_fatal urlparse World handler output_location _ _ _ Hr Hk).
      reflexivity.
  - rewrite (get_output_found urlparse World handler output_location _ _ _ Hr).
    reflexivity.
Qed.

End PollingSteps.

(* ------------------------------------------------------------------ *)
(** * The batch cells, step by step *)

Section OnlyIn.

Variable World : Type.
Variable handler : forall T : Type, awsE T -> World -> T * World.
Variable P : obs -> Prop.

(** [only_for_each], asking of the body only what concerns the elements
    of the list. *)
Lemma only_for_each_in {A V : Type} (body : A -> V -> py V) (xs : list A) :
  (forall x s, In x xs -> only World handler P (body x s)) ->
  forall s, only World handler P (for_each xs body s).
Proof.
  induction xs as [|x xs IH]; intros Hbody s; cbn [for_each].
  - apply only_ret.
  - apply only_bind; [apply Hbody; left; reflexivity|].
    intros s'. apply IH. intros y s0 Hy. apply Hbody. right. exact Hy.
Qed.

End OnlyIn.

Section BatchSteps.

Variable s3_bucket : string.
Variable endpoint_name : string.
Variable urlparse : string -> ParseResult.
Variable World : Type.
Variable handler : forall T : Type, awsE T -> World -> T * World.

Abbreviation run := (run handler).
Abbreviation submit := (submit_step s3_bucket endpoint_name).
Abbreviation collect := (collect_step urlparse).
Abbreviation cell := (batch s3_bucket endpoint_name urlparse).
Abbreviation rest_of_cell := (fun record : list (string * string) =>
  call (Print batch_header) ;;;
  output <- for_each record collect None ;;;
  Ret (mkBatchVars record output)).

Lemma submissions_app tr1 tr2 :
  submissions (tr1 ++ tr2) = submissions tr1 ++ submissions tr2.
Proof. unfold submissions. apply List.filter_app. Qed.

Lemma no_invoke_no_submissions tr :
  Forall (fun o => is_invoke o = false) tr -> submissions tr = [].
Proof.
  induction 1 as [|o tr Ho _ IH]; [reflexivity|].
  unfold submissions in *. cbn [List.filter]. rewrite Ho. exact IH.
Qed.

Lemma submit_step_submissions (i : Z) acc fuel w :
  length (submissions (trace (run fuel (submit i acc) w))) <= 1.
Proof.
  unfold submit_step, call_or_raise.
  destruct fuel as [|[|fuel]].
  - rewrite run_zero_call_then. cbn. lia.
  - rewrite run_call_then, run_bind, run_zero_call_then. cbn. lia.
  - rewrite run_call_then, run_bind, run_call_then.
    destruct (handler _ Time w) as [t w1]; cbn [fst snd observed].
    destruct (handler _ (InvokeEndpointAsync _ _ _) w1) as [[e|resp] w2];
      cbn [fst snd observed].
    + rewrite run_raise. cbn. lia.
    + rewrite run_ret. unfold then_run, after.
      cbn [status trace world fuel_left app]. rewrite run_ret. cbn. lia.
Qed.

Lemma submit_loop_submissions (xs : list Z) : forall acc fuel w,
  length (submissions (trace (run fuel (for_each xs submit acc) w)))
  <= length xs.
Proof.
  induction xs as [|x xs IH]; intros acc fuel w; cbn [for_each].
  - rewrite run_ret. cbn. lia.
  - rewrite run_bind.
    pose proof (submit_step_submissions x acc fuel w) as H1.
    destruct (run fuel (submit x acc) w) as [[[r|e]|] w1 tr1 left];
      unfold then_run; cbn [status trace world fuel_left length] in *; try lia.
    unfold after; cbn [trace]. rewrite submissions_app, length_app.
    specialize (IH r left w1). lia.
Qed.

Lemma batch_only_submission_obs (n : Z) :
  only World handler (submission_obs s3_bucket endpoint_name) (cell n).
Proof.
  unfold batch. apply only_bind.
  - apply only_for_each. intros x s. unfold submit_step.
    apply only_bind; [apply only_call; intros t; exact I|]. intros _.
    apply only_bind; [|intros resp; apply only_ret].
    apply only_call_or_raise. intros r. cbn. auto.
  - intros record.
    eapply only_weaken; [|apply (collection_submits_nothing urlparse World handler record)].
    intros [] H; cbn in *; try exact I; discriminate.
Qed.

Lemma answered_app tr1 tr2 : answered (tr1 ++ tr2) = answered tr1 ++ answered tr2.
Proof.
  induction tr1 as [|o tr1 IH]; [reflexivity|].
  destruct o as [ep i c [e|resp]| | | | | |]; cbn [app answered]; rewrite IH; reflexivity.
Qed.

Lemma answered_submit_trace (items : list (Z * InvokeResponse)) :
  answered (submit_trace s3_bucket endpoint_name items)
  = map snd (map (entry_of s3_bucket) items).
Proof.
  induction items as [|item items IH]; [reflexivity|].
  cbn [submit_trace flat_map app answered map entry_of snd].
  f_equal. exact IH.
Qed.

Lemma reads_among_more (locs locs' : list string) (o : obs) :
  (forall loc, In loc locs -> In loc locs') ->
  reads_among urlparse locs o -> reads_among urlparse locs' o.
Proof.
  intros Hsub. destruct o; cbn; try exact (fun H => H).
  intros (loc & Hin & Hb & Hk). exists loc. auto.
Qed.

Lemma collection_reads_record (record : list (string * string)) :
  only World handler (reads_among urlparse (map snd record))
    (rest_of_cell record).
Proof.
  apply only_bind; [apply only_call; intros []; exact I|]. intros _.
  apply only_bind; [|intros out; apply only_ret].
  apply only_for_each_in. intros [input_file output_location] prev Hin.
  unfold collect_step. apply only_bind.
  - eapply only_weaken; [|apply poll_only_obs].
    intros [] H; cbn in *; try exact I.
    exists output_location. destruct H as [-> ->].
    split; [|split; reflexivity].
    apply in_map_iff. exists (input_file, output_location). auto.
  - intros content. apply only_bind; [apply only_call; intros []; exact I|].
    intros _. apply only_ret.
Qed.

Lemma run_collect_step input_file output_location prev fuel w :
  run fuel (collect (input_file, output_location) prev) w
  = then_run handler
      (fun output =>
         call (Print (report_line input_file output_location)) ;;;
         Ret (Some output))
      (run fuel (get_output urlparse output_location) w).
Proof. unfold collect_step. apply run_bind. Qed.

End BatchSteps.

(* ------------------------------------------------------------------ *)
(** * More on the batch cells *)

Section BatchProperties.

Variable s3_bucket : string.
Variable endpoint_name : string.
Variable urlparse : string -> ParseResult.
Variable World : Type.
Variable handler : forall T : Type, awsE T -> World -> T * World.

Abbreviation run := (run handler).
Abbreviation submit := (submit_step s3_bucket endpoint_name).
Abbreviation collect := (collect_step urlparse).
Abbreviation cell := (batch s3_bucket endpoint_name urlparse).

(** At every step of a batch cell over range(1, n), at most n - 1
    submissions have been made, and each of them submitted
    input_s3_location to endpoint_name as application/json. *)
Theorem batch_never_oversubmits (n : Z) (fuel : nat) (w : World) :
  length (submissions (trace (run fuel (cell n) w))) <= Z.to_nat (n - 1) /\
  Forall (submission_obs s3_bucket endpoint_name) (trace (run fuel (cell n) w)).
Proof.
  split; [|apply (batch_only_submission_obs s3_bucket endpoint_name urlparse
                    World handler n fuel w)].
  unfold batch. rewrite run_bind.
  pose proof (submit_loop_submissions s3_bucket endpoint_name World handler
                (range 1 n) [] fuel w) as Hs.
  rewrite range_length in Hs.
  destruct (run fuel (for_each (range 1 n) submit []) w)
    as [[[record|e]|] w1 tr1 left]; unfold then_run;
    cbn [status trace world fuel_left] in *; try exact Hs.
  unfold after; cbn [trace]. rewrite submissions_app.
  rewrite (no_invoke_no_submissions _
             (collection_submits_nothing urlparse World handler record left w1)).
  rewrite app_nil_r. exact Hs.
Qed.

(** At every step of a batch cell, every read made so far is of the
    bucket and key that urlparse finds in an output location the
    service answered an earlier submission with: the cell polls nothing
    it was not given. *)
Theorem batch_polls_only_answered_locations (n : Z) (fuel : nat) (w : World) :
  Forall (reads_among urlparse (answered (trace (run fuel (cell n) w))))
    (trace (run fuel (cell n) w)).
Proof.
  unfold batch. rewrite run_bind.
  pose proof (submit_loop_reads_nothing s3_bucket endpoint_name World handler
                (range 1 n) [] fuel w) as Hs.
  cbn beta in Hs.
  assert (Hnone : forall locs tr,
             Forall (fun o => is_read o = false) tr ->
             Forall (reads_among urlparse locs) tr).
  { intros locs tr H. eapply Forall_impl; [exact H|].
    intros [] Ho; cbn in *; try exact I; discriminate. }
  destruct (run fuel (for_each (range 1 n) submit []) w)
    as [[[record|e]|] w1 tr1 left] eqn:Hrun; unfold then_run;
    cbn [status trace world fuel_left] in *;
    [|apply Hnone; exact Hs|apply Hnone; exact Hs].
  unfold after; cbn [trace].
  destruct (submit_loop_returned s3_bucket endpoint_name World handler
              (range 1 n) [] fuel w record) as (items & _ & Hrec & Htr).
  { rewrite Hrun. reflexivity. }
  rewrite Hrun in Htr. cbn [trace app] in Htr, Hrec. subst tr1 record.
  rewrite answered_app, answered_submit_trace.
  apply Forall_app. split; [apply Hnone; exact Hs|].
  eapply Forall_impl;
    [apply (collection_reads_record urlparse World handler
              (map (entry_of s3_bucket) items) left w1)|].
  intros o. apply reads_among_more. intros loc Hin.
  apply in_or_app. left. exact Hin.
Qed.

(** When the submission loop of a batch cell has ended with a record
    whose first entry is never found by the reads of its poll, the cell
    never ends, whatever fuel it is given: it does not return, does not
    raise, collects no content, and never reads anything but that first
    location. *)
Theorem batch_blocks_on_lost_output (n : Z) (w : World) (fuel0 : nat)
  (input_file output_location : string) (others : list (string * string)) :
  let bucket := netloc (urlparse output_location) in
  let key := slice_from_1 (path (urlparse output_location)) in
  let s0 := run fuel0 (for_each (range 1 n) submit []) w in
  status s0 = Some (Returned ((input_file, output_location) :: others)) ->
  (forall i,
      not_found_at handler bucket key
        (after_retries handler bucket key i
           (snd (handler _ (Print batch_header) (world s0)))) = true) ->
  forall fuel,
    status (run fuel (cell n) w) = None /\
    retrieved (trace (run fuel (cell n) w)) = [] /\
    Forall (fun o => is_read o = true -> poll_obs bucket key o)
      (trace (run fuel (cell n) w)).
Proof.
  cbn zeta. intros H0 Hlost fuel.
  unfold batch. rewrite run_bind.
  pose proof (submit_loop_reads_nothing s3_bucket endpoint_name World handler
                (range 1 n) [] fuel w) as Hs.
  cbn beta in Hs.
  assert (Hquiet : forall tr,
             Forall (fun o => is_read o = false) tr ->
             retrieved tr = [] /\
             Forall (fun o => is_read o = true ->
                       poll_obs (netloc (urlparse output_location))
                         (slice_from_1 (path (urlparse output_location))) o) tr).
  { induction 1 as [|o tr Ho _ [IH1 IH2]]; [split; constructor|].
    split; [destruct o; try discriminate; exact IH1|].
    constructor; [congruence | exact IH2]. }
  destruct (status (run fuel (for_each (range 1 n) submit []) w)) as [o|] eqn:Hst.
  - destruct (ended_agree World handler _ w fuel fuel0 _ _ Hst H0) as (-> & Hw & Htr).
    destruct (run fuel (for_each (range 1 n) submit []) w) as [st w1 tr1 left].
    cbn [status world trace] in *. subst st w1.
    unfold then_run; cbn [status trace world fuel_left].
    destruct (Hquiet tr1 Hs) as [Hq1 Hq2].
    destruct left as [|left].
    { rewrite run_zero_call_then. unfold after; cbn [status trace].
      rewrite app_nil_r. auto. }
    rewrite run_call_then. cbn beta. rewrite run_bind. cbn [for_each]. rewrite run_bind.
    rewrite run_collect_step.
    pose proof (poll_never urlparse World handler output_location left _ Hlost) as Hnever.
    pose proof (poll_only_obs urlparse World handler output_location left
                  (snd (handler _ (Print batch_header)
                          (world (run fuel0 (for_each (range 1 n) submit []) w)))))
      as Hobs.
    pose proof (poll_retrieved urlparse World handler output_location left
                  (snd (handler _ (Print batch_header)
                          (world (run fuel0 (for_each (range 1 n) submit []) w)))))
      as Hret.
    rewrite Hnever in Hret.
    cbn beta in Hobs.
    destruct (run left (get_output urlparse output_location) _)
      as [stp wp trp leftp].
    cbn [status trace] in Hnever, Hobs. subst stp.
    unfold then_run, after; cbn [status trace world fuel_left observed].
    split; [reflexivity|]. split.
    + rewrite retrieved_app, Hq1. cbn [app retrieved]. exact Hret.
    + apply Forall_app. split; [exact Hq2|].
      constructor; [discriminate|].
      eapply Forall_impl; [exact Hobs|]. auto.
  - destruct (run fuel (for_each (range 1 n) submit []) w) as [st w1 tr1 left].
    cbn [status trace] in *. subst st.
    unfold then_run; cbn [status trace world fuel_left].
    destruct (Hquiet tr1 Hs) as [Hq1 Hq2]. auto.
Qed.

End BatchProperties.

(* ------------------------------------------------------------------ *)
(** * The upload cell *)

Section UploadProperties.

Variable s3_bucket : string.
Variable World : Type.
Variable handler : forall T : Type, awsE T -> World -> T * World.

(** The upload cell opens data/input.json for reading before anything
    else.  When the file cannot be opened, the cell raises that
    exception: nothing is uploaded and nothing printed.  Otherwise what
    the file holds is uploaded to bucket s3_bucket at key
    async-inference-demo/input/input.json, and the confirmation is
    printed only when that upload succeeded: when it raises, the cell
    raises the same exception with nothing printed. *)
Theorem upload_input_confirms_only_success (w : World) (fuel : nat) :
  let opened := fst (handler _ (OpenFile "data/input.json" "rb") w) in
  let w0 := snd (handler _ (OpenFile "data/input.json" "rb") w) in
  match opened with
  | inl e =>
      run handler (1 + fuel) (upload_input s3_bucket) w
      = Snap (Some (Raised e)) w0
          [ObsOpen "data/input.json" "rb" (inl e)] fuel
  | inr input_file =>
      let upload :=
        UploadFileobj s3_bucket "async-inference-demo/input/input.json"
          input_file in
      let w1 := snd (handler _ upload w0) in
      match fst (handler _ upload w0) with
      | inl e =>
          run handler (2 + fuel) (upload_input s3_bucket) w
          = Snap (Some (Raised e)) w1
              [ObsOpen "data/input.json" "rb" (inr input_file);
               ObsUpload s3_bucket "async-inference-demo/input/input.json"
                 input_file (inl e)] fuel
      | inr _ =>
          run handler (3 + fuel) (upload_input s3_bucket) w
          = Snap (Some (Returned tt))
              (snd (handler _ (Print "Uploaded the input data to S3 bucket") w1))
              [ObsOpen "data/input.json" "rb" (inr input_file);
               ObsUpload s3_bucket "async-inference-demo/input/input.json"
                 input_file (inr tt);
               ObsPrint "Uploaded the input data to S3 bucket"] fuel
      end
  end.
Proof.
  cbn zeta. unfold upload_input, call_or_raise.
  change input_s3_key with "async-inference-demo/input/input.json".
  destruct (fst (handler _ (OpenFile _ _) w)) as [e|input_file] eqn:Ho.
  - cbn [Nat.add]. rewrite run_bind, run_call_then, Ho, run_raise.
    unfold then_run, after. cbn [status trace world fuel_left observed app].
    reflexivity.
  - destruct (fst (handler _ (UploadFileobj _ _ input_file) _)) as [e|[]] eqn:Hu;
      cbn [Nat.add]; rewrite run_bind, run_call_then, Ho, run_ret;
      unfold then_run at 1, after;
      cbn [status trace world fuel_left observed app];
      rewrite run_bind, run_call_then, Hu.
    + rewrite run_raise. unfold then_run, after.
      cbn [status trace world fuel_left observed app]. reflexivity.
    + rewrite run_ret. unfold then_run, after.
      cbn [status trace world fuel_left observed app].
      rewrite run_call. destruct (handler _ (Print _) _) as [[] w2]. reflexivity.
Qed.

End UploadProperties.

(* ------------------------------------------------------------------ *)
(** * The reference environment at work *)

Section PollEnds.

Variable urlparse : string -> ParseResult.
Variable World : Type.
Variable handler : forall T : Type, awsE T -> World -> T * World.
Variable output_location : string.

Abbreviation bucket := (netloc (urlparse output_location)).
Abbreviation key := (slice_from_1 (path (urlparse output_location))).

(** [n] reads that find nothing, then one that finds [content]: the poll
    ends, returning [content]. *)
Lemma poll_ends n w content :
  (forall i, i < n ->
     not_found_at handler bucket key (after_retries handler bucket key i w) = true) ->
  read_answer handler bucket key (after_retries handler bucket key n w)
  = inr content ->
  ends handler (get_output urlparse output_location) w (Returned content)
    (snd (handler _ (ReadS3File bucket key)
            (after_retries handler bucket key n w)))
    (waiting_trace handler bucket key n w
       ++ [ObsRead bucket key (inr content)]).
Proof.
  intros Hwait Hfound. exists (4 * n + 1), 0.
  rewrite (poll_after_retries urlparse World handler output_location n w 1 Hwait).
  rewrite (get_output_found urlparse World handler output_location 0 _ content Hfound).
  reflexivity.
Qed.

Lemma ends_poll_retrieved w content w' tr :
  ends handler (get_output urlparse output_location) w (Returned content) w' tr ->
  retrieved tr = [content].
Proof.
  intros (fuel & left & H).
  pose proof (poll_retrieved urlparse World handler output_location fuel w) as Hr.
  rewrite H in Hr. exact Hr.
Qed.

End PollEnds.

Module ServiceFacts.

Import Cloud Service.

Lemma length_append (a b : string) :
  String.length (a ++ b) = String.length a + String.length b.
Proof.
  induction a as [|c a IH]; [reflexivity|].
  change (S (String.length (a ++ b)) = S (String.length a + String.length b)).
  rewrite IH. reflexivity.
Qed.

Lemma append_inv_tail (c : string) : forall a b : string,
  (a ++ c = b ++ c)%string -> a = b.
Proof.
  induction a as [|x a IH]; intros [|y b] H.
  - reflexivity.
  - exfalso. apply (f_equal String.length) in H.
    change (String.length c = S (String.length (b ++ c))) in H.
    rewrite length_append in H. lia.
  - exfalso. apply (f_equal String.length) in H.
    change (S (String.length (a ++ c)) = String.length c) in H.
    rewrite length_append in H. lia.
  - change (String x (a ++ c) = String y (b ++ c))%string in H.
    injection H as -> H. f_equal. apply IH. exact H.
Qed.

(** Different tokens name different outputs. *)
Lemma output_key_inj (t t' : nat) : output_key t = output_key t' -> t = t'.
Proof.
  unfold output_key. intros H.
  do 2 apply append_inv_head in H.
  apply append_inv_tail in H. apply (inj pretty) in H. exact H.
Qed.

(** ** What a batch of finished jobs leaves in the storage *)

Abbreviation finish := (fun (m : gmap (string * string) string) (j : Job) =>
  <[target j := payload j]> m).

Lemma written_some loc body (l : list Job) : forall m,
  (forall j, In j l -> target j = loc -> payload j = body) ->
  (m !! loc = Some body \/ exists j, In j l /\ target j = loc) ->
  fold_left finish l m !! loc = Some body.
Proof.
  induction l as [|a l IH]; intros m Hu Hm; cbn [fold_left].
  - destruct Hm as [Hm|(j & [] & _)]. exact Hm.
  - apply IH.
    + intros j Hj. apply Hu. right. exact Hj.
    + destruct (decide (target a = loc)) as [Ha|Ha].
      * left. rewrite Ha, lookup_insert_eq. f_equal. apply Hu; [left; reflexivity|exact Ha].
      * rewrite lookup_insert_ne by exact Ha.
        destruct Hm as [Hm|(j & [<-|Hj] & Ht)]; [left; exact Hm|contradiction|].
        right. exists j. auto.
Qed.

Lemma written_none loc (l : list Job) : forall m,
  (forall j, In j l -> target j <> loc) ->
  fold_left finish l m !! loc = m !! loc.
Proof.
  induction l as [|a l IH]; intros m Hn; cbn [fold_left]; [reflexivity|].
  rewrite IH by (intros j Hj; apply Hn; right; exact Hj).
  apply lookup_insert_ne. apply Hn. left. reflexivity.
Qed.

(** ** Promises are kept *)

Lemma settle_promised loc body w :
  promised loc body w -> promised loc body (settle w).
Proof.
  intros (Hd & Hu & Hs). split; [exact Hd|]. split.
  - intros j Hj. cbn [settle jobs] in Hj. apply List.filter_In in Hj.
    apply Hu. tauto.
  - cbn [settle objects jobs].
    set (ready := List.filter (fun j => (due j <=? clock w)%Z) (jobs w)).
    assert (Hready : forall j, In j ready -> In j (jobs w)).
    { intros j Hj. apply List.filter_In in Hj. tauto. }
    destruct (List.Exists_dec (fun j => target j = loc) ready
                (fun j => decide (target j = loc))) as [Hex|Hnex].
    + left. apply written_some.
      * intros j Hj. apply Hu. apply Hready. exact Hj.
      * right. apply List.Exists_exists in Hex. exact Hex.
    + assert (Hn : forall j, In j ready -> target j <> loc).
      { intros j Hj Ht. apply Hnex. apply List.Exists_exists. exists j. auto. }
      rewrite (written_none loc ready _ Hn).
      destruct Hs as [Hs|(Hs & j & Hj & Ht)]; [left; exact Hs|].
      right. split; [exact Hs|]. exists j. split; [|exact Ht].
      apply List.filter_In. split; [exact Hj|].
      destruct (due j <=? clock w)%Z eqn:Hdue; [|reflexivity].
      exfalso. apply (Hn j); [|exact Ht].
      apply List.filter_In. auto.
Qed.

Lemma tick_promised loc body secs w :
  promised loc body w -> promised loc body (tick secs w).
Proof. intros H. apply settle_promised. exact H. Qed.

Lemma say_promised loc body line w :
  promised loc body w -> promised loc body (say line w).
Proof. intros H. exact H. Qed.

Section Waiting.

Variable s3_bucket : string.
Variable bucket key : string.

Abbreviation h := (handler s3_bucket).

Lemma retry_world_eq w :
  retry_world h bucket key w = tick 2 (say "waiting for output..." w).
Proof.
  unfold retry_world, wait_world. cbn [handler snd].
  rewrite CloudFacts.read_keeps_world. reflexivity.
Qed.

Lemma after_retries_promised loc body n : forall w,
  promised loc body w -> promised loc body (after_retries h bucket key n w).
Proof.
  induction n as [|n IH]; intros w H; cbn [after_retries]; [exact H|].
  apply IH. rewrite retry_world_eq. apply tick_promised, say_promised. exact H.
Qed.

(** What is stored as promised stays stored. *)
Lemma after_retries_stored loc body n : forall w,
  promised loc body w -> objects w !! loc = Some body ->
  objects (after_retries h bucket key n w) !! loc = Some body.
Proof.
  induction n as [|n IH]; intros w Hp Hs; cbn [after_retries]; [exact Hs|].
  apply IH.
  - rewrite retry_world_eq. apply tick_promised, say_promised. exact Hp.
  - rewrite retry_world_eq. cbn [tick settle say objects jobs clock].
    destruct Hp as (_ & Hu & _). apply written_some; [|left; exact Hs].
    intros j Hj. apply List.filter_In in Hj. apply Hu. tauto.
Qed.

(** Waiting touches neither the plan of the service, nor its count of
    accepted invocations, nor what it denies; it moves the clock by 2
    for each retry. *)
Lemma after_retries_frame n : forall w,
  plan (after_retries h bucket key n w) = plan w /\
  served (after_retries h bucket key n w) = served w /\
  denied (after_retries h bucket key n w) = denied w /\
  clock (after_retries h bucket key n w) = (clock w + 2 * Z.of_nat n)%Z.
Proof.
  induction n as [|n IH]; intros w; cbn [after_retries].
  - repeat split; try reflexivity. lia.
  - destruct (IH (retry_world h bucket key w)) as (Hp & Hs & Hd & Hc).
    rewrite Hp, Hs, Hd, Hc, retry_world_eq. cbn.
    repeat split; try reflexivity. lia.
Qed.

Lemma promised_read_present body w :
  promised (bucket, key) body w -> objects w !! (bucket, key) = Some body ->
  read_answer h bucket key w = inr body.
Proof.
  intros (Hd & _) Hs. unfold read_answer. cbn [handler].
  rewrite (CloudFacts.read_present _ _ _ _ Hs Hd). reflexivity.
Qed.

Lemma promised_read_absent body w :
  promised (bucket, key) body w -> objects w !! (bucket, key) = None ->
  not_found_at h bucket key w = true.
Proof.
  intros (Hd & _) Hs. unfold not_found_at, read_answer. cbn [handler].
  rewrite (CloudFacts.read_absent _ _ _ Hs Hd). reflexivity.
Qed.

(** A job that is due gets its payload written by the next wait. *)
Lemma retry_writes_due body w j :
  promised (bucket, key) body w -> In j (jobs w) -> target j = (bucket, key) ->
  (due j <= clock w + 2)%Z ->
  objects (retry_world h bucket key w) !! (bucket, key) = Some body.
Proof.
  intros (_ & Hu & _) Hj Ht Hdue. rewrite retry_world_eq.
  cbn [tick settle say objects jobs clock].
  apply written_some.
  - intros j' Hj'. apply List.filter_In in Hj'. apply Hu. tauto.
  - right. exists j. split; [|exact Ht].
    apply List.filter_In. split; [exact Hj|]. apply Z.leb_le. exact Hdue.
Qed.

(** A job that is not due yet is still queued after the next wait. *)
Lemma retry_keeps_waiting w j :
  In j (jobs w) -> (clock w + 2 < due j)%Z ->
  In j (jobs (retry_world h bucket key w)).
Proof.
  intros Hj Hdue. rewrite retry_world_eq.
  cbn [tick settle say objects jobs clock].
  apply List.filter_In. split; [exact Hj|].
  apply negb_true_iff. apply Z.leb_gt. exact Hdue.
Qed.

(** What is promised is found, after finitely many retries. *)
Lemma promised_is_found body (M : nat) : forall w,
  promised (bucket, key) body w ->
  (objects w !! (bucket, key) = None ->
   exists j, In j (jobs w) /\ target j = (bucket, key) /\
             Z.to_nat (due j - clock w) <= M) ->
  exists n,
    (forall i, i < n ->
       not_found_at h bucket key (after_retries h bucket key i w) = true) /\
    read_answer h bucket key (after_retries h bucket key n w) = inr body.
Proof.
  induction M as [M IH] using lt_wf_ind. intros w Hp Hm.
  destruct (objects w !! (bucket, key)) as [body'|] eqn:Hobj.
  - exists 0. split; [intros i Hi; lia|]. cbn [after_retries].
    apply promised_read_present; [exact Hp|].
    destruct Hp as (_ & _ & [Hs|[Hs _]]); congruence.
  - destruct (Hm eq_refl) as (j & Hj & Ht & HM).
    assert (Hp' : promised (bucket, key) body (retry_world h bucket key w)).
    { rewrite retry_world_eq. apply tick_promised, say_promised. exact Hp. }
    assert (Hclock : clock (retry_world h bucket key w) = (clock w + 2)%Z).
    { rewrite retry_world_eq. reflexivity. }
    destruct (Z.le_gt_cases (due j) (clock w + 2)) as [Hdue|Hdue].
    + exists 1. split.
      * intros i Hi. replace i with 0 by lia. cbn [after_retries].
        apply (promised_read_absent body); assumption.
      * cbn [after_retries]. apply promised_read_present; [exact Hp'|].
        apply (retry_writes_due body w j); assumption.
    + destruct (IH (M - 1) ltac:(lia) (retry_world h bucket key w) Hp')
        as (n & Hwait & Hfound).
      { intros _. exists j. split; [apply retry_keeps_waiting; assumption|].
        split; [exact Ht|]. rewrite Hclock. lia. }
      exists (S n). split; [|exact Hfound].
      intros [|i] Hi; cbn [after_retries].
      * apply (promised_read_absent body); assumption.
      * apply Hwait. lia.
Qed.

Lemma promised_found body w :
  promised (bucket, key) body w ->
  exists n,
    (forall i, i < n ->
       not_found_at h bucket key (after_retries h bucket key i w) = true) /\
    read_answer h bucket key (after_retries h bucket key n w) = inr body.
Proof.
  intros Hp.
  destruct (objects w !! (bucket, key)) as [body'|] eqn:Hobj.
  - apply (promised_is_found body 0 w Hp). congruence.
  - pose proof Hp as (_ & _ & [Hs|(_ & j & Hj & Ht)]); [congruence|].
    apply (promised_is_found body (Z.to_nat (due j - clock w)) w Hp).
    intros _. exists j. auto.
Qed.

End Waiting.

Section Latency.

Variable s3_bucket : string.
Variable bucket key : string.

Abbreviation h := (handler s3_bucket).

(** With one job for the polled place, not due yet: the reads find
    nothing until the first wait that ends at or after the due time,
    which is less than 2 after it. *)
Lemma single_job_found (M : nat) : forall w j,
  (bucket, key) ∉ denied w ->
  objects w !! (bucket, key) = None ->
  In j (jobs w) -> target j = (bucket, key) ->
  (forall j', In j' (jobs w) -> target j' = (bucket, key) -> j' = j) ->
  (clock w < due j)%Z ->
  Z.to_nat (due j - clock w) <= M ->
  exists n,
    0 < n /\
    (forall i, i < n ->
       not_found_at h bucket key (after_retries h bucket key i w) = true) /\
    read_answer h bucket key (after_retries h bucket key n w)
    = inr (payload j) /\
    (due j <= clock w + 2 * Z.of_nat n < due j + 2)%Z.
Proof.
  induction M as [M IH] using lt_wf_ind. intros w j Hd Hobj Hj Ht Huniq Hlt HM.
  assert (Hp : promised (bucket, key) (payload j) w).
  { split; [exact Hd|]. split.
    - intros j' Hj' Ht'. rewrite (Huniq j' Hj' Ht'). reflexivity.
    - right. split; [exact Hobj|]. exists j. auto. }
  assert (Hp' : promised (bucket, key) (payload j) (retry_world h bucket key w)).
  { rewrite retry_world_eq. apply tick_promised, say_promised. exact Hp. }
  destruct (Z.le_gt_cases (due j) (clock w + 2)) as [Hdue|Hdue].
  - exists 1. split; [lia|]. split; [|split; [|lia]].
    + intros i Hi. replace i with 0 by lia. cbn [after_retries].
      apply (promised_read_absent s3_bucket bucket key (payload j)); assumption.
    + cbn [after_retries]. apply promised_read_present; [exact Hp'|].
      apply (retry_writes_due s3_bucket bucket key (payload j) w j); assumption.
  - assert (Hj' : In j (jobs (retry_world h bucket key w))).
    { apply retry_keeps_waiting; assumption. }
    assert (Hclock : clock (retry_world h bucket key w) = (clock w + 2)%Z).
    { rewrite retry_world_eq. reflexivity. }
    assert (Hsub : forall j', In j' (jobs (retry_world h bucket key w)) ->
                          In j' (jobs w)).
    { intros j'. rewrite retry_world_eq. cbn [tick settle say jobs clock].
      intros H. apply List.filter_In in H. tauto. }
    assert (Hobj' : objects (retry_world h bucket key w) !! (bucket, key) = None).
    { rewrite retry_world_eq. cbn [tick settle say objects jobs clock].
      rewrite written_none; [exact Hobj|].
      intros j' Hin Ht'. apply List.filter_In in Hin. destruct Hin as [Hin Hready].
      rewrite (Huniq j' Hin Ht') in Hready. apply Z.leb_le in Hready. lia. }
    assert (Hd' : (bucket, key) ∉ denied (retry_world h bucket key w)).
    { rewrite retry_world_eq. exact Hd. }
    assert (Huniq' : forall j', In j' (jobs (retry_world h bucket key w)) ->
                            target j' = (bucket, key) -> j' = j).
    { intros j' Hin Ht'. apply Huniq; [apply Hsub; exact Hin | exact Ht']. }
    destruct (IH (M - 1) ltac:(lia) (retry_world h bucket key w) j
                Hd' Hobj' Hj' Ht Huniq' ltac:(lia) ltac:(lia))
      as (n & Hn & Hwait & Hfound & Hbound).
    exists (S n). split; [lia|]. split; [|split; [exact Hfound|lia]].
    intros [|i] Hi; cbn [after_retries].
    + apply (promised_read_absent s3_bucket bucket key (payload j)); assumption.
    + apply Hwait. lia.
Qed.

End Latency.

Section Noticing.

Variable s3_bucket : string.
Variable urlparse : string -> ParseResult.

(** In the reference environment, a poll for an output that one queued
    job will write, started before the job is due, waits, returns the
    job's payload, and notices it less than 2 time units after it was
    due: with [n] retries it has made [n + 1] reads, the clock has moved
    by [2 n], and stands in [due, due + 2). *)
Theorem poll_notices_output_within_two (output_location : string) (w : World)
  (j : Job) :
  let bucket := netloc (urlparse output_location) in
  let key := slice_from_1 (path (urlparse output_location)) in
  (bucket, key) ∉ denied w ->
  objects w !! (bucket, key) = None ->
  In j (jobs w) -> target j = (bucket, key) ->
  (forall j', In j' (jobs w) -> target j' = (bucket, key) -> j' = j) ->
  (clock w < due j)%Z ->
  exists n w' tr,
    0 < n /\
    ends (handler s3_bucket) (get_output urlparse output_location) w
      (Returned (payload j)) w' tr /\
    reads tr = S n /\
    clock w' = (clock w + 2 * Z.of_nat n)%Z /\
    (due j <= clock w' < due j + 2)%Z.
Proof.
  cbn zeta. intros Hd Hobj Hj Ht Huniq Hlt.
  destruct (single_job_found s3_bucket _ _ (Z.to_nat (due j - clock w)) w j
              Hd Hobj Hj Ht Huniq Hlt (le_n _))
    as (n & Hn & Hwait & Hfound & Hbound).
  pose proof (poll_ends urlparse World (handler s3_bucket) output_location
                n w (payload j) Hwait Hfound) as Hends.
  cbn [handler] in Hends. rewrite CloudFacts.read_keeps_world in Hends.
  destruct (after_retries_frame s3_bucket
              (netloc (urlparse output_location))
              (slice_from_1 (path (urlparse output_location))) n w)
    as (_ & _ & _ & Hclock).
  exists n. eexists. eexists. split; [exact Hn|]. split; [exact Hends|].
  split; [|split; [exact Hclock | rewrite Hclock; exact Hbound]].
  unfold reads. rewrite List.filter_app, length_app, waiting_trace_reads.
  cbn. lia.
Qed.

End Noticing.

(** ** Unused names stay unused *)

Section Unused.

Variable s3_bucket : string.

Abbreviation h := (handler s3_bucket).

Lemma settle_unused w : unused s3_bucket w -> unused s3_bucket (settle w).
Proof.
  intros H token Ht. destruct (H token Ht) as [Hobj Hjobs]. split.
  - cbn [settle objects]. rewrite written_none; [exact Hobj|].
    intros j Hj. apply List.filter_In in Hj. apply Hjobs. tauto.
  - intros j Hj. cbn [settle jobs] in Hj. apply List.filter_In in Hj.
    apply Hjobs. tauto.
Qed.

Lemma after_retries_unused bucket key n : forall w,
  unused s3_bucket w -> unused s3_bucket (after_retries h bucket key n w).
Proof.
  induction n as [|n IH]; intros w H; cbn [after_retries]; [exact H|].
  apply IH. rewrite retry_world_eq. apply settle_unused. exact H.
Qed.

(** ** What an accepted invocation does *)

Lemma invoke_accepted w processing summary rest :
  plan w = inr (processing, summary) :: rest ->
  invoke s3_bucket w
  = (inr (mkInvokeResponse (output_location s3_bucket (served w))
            (pretty (served w))),
     settle (mkWorld (objects w) (clock w)
               (jobs w ++ [mkJob (clock w + processing)
                             (s3_bucket, output_key (served w)) summary])
               rest (S (served w)) (denied w) (stdout w) (disk w))).
Proof. intros H. unfold invoke. rewrite H. reflexivity. Qed.

Lemma invoke_frame w processing summary rest :
  plan w = inr (processing, summary) :: rest ->
  plan (snd (invoke s3_bucket w)) = rest /\
  served (snd (invoke s3_bucket w)) = S (served w) /\
  denied (snd (invoke s3_bucket w)) = denied w /\
  clock (snd (invoke s3_bucket w)) = clock w.
Proof. intros H. rewrite (invoke_accepted _ _ _ _ H). repeat split. Qed.

Lemma invoke_unused w processing summary rest :
  plan w = inr (processing, summary) :: rest ->
  unused s3_bucket w -> unused s3_bucket (snd (invoke s3_bucket w)).
Proof.
  intros Hplan H. rewrite (invoke_accepted _ _ _ _ Hplan). cbn [snd].
  apply settle_unused. intros token Ht. cbn [served] in Ht.
  destruct (H token ltac:(lia)) as [Hobj Hjobs]. split; [exact Hobj|].
  intros j Hj. cbn [jobs] in Hj. apply in_app_or in Hj.
  destruct Hj as [Hj|[<-|[]]]; [apply Hjobs; exact Hj|].
  cbn [target]. intros Heq. apply (f_equal snd) in Heq. cbn [snd] in Heq.
  apply output_key_inj in Heq. lia.
Qed.

(** The output of the invocation just accepted is promised. *)
Lemma invoke_promises w processing summary rest :
  plan w = inr (processing, summary) :: rest ->
  unused s3_bucket w ->
  (s3_bucket, output_key (served w)) ∉ denied w ->
  promised (s3_bucket, output_key (served w)) summary (snd (invoke s3_bucket w)).
Proof.
  intros Hplan H Hd. rewrite (invoke_accepted _ _ _ _ Hplan). cbn [snd].
  destruct (H (served w) ltac:(lia)) as [Hobj Hjobs].
  apply settle_promised. split; [exact Hd|]. split.
  - intros j Hj Ht. cbn [jobs] in Hj. apply in_app_or in Hj.
    destruct Hj as [Hj|[<-|[]]]; [|reflexivity].
    exfalso. apply (Hjobs j Hj Ht).
  - right. split; [exact Hobj|].
    exists (mkJob (clock w + processing) (s3_bucket, output_key (served w)) summary).
    split; [|reflexivity].
    cbn [jobs]. apply in_or_app. right. left. reflexivity.
Qed.

(** What was promised before stays promised. *)
Lemma invoke_keeps_promise w processing summary rest token body :
  plan w = inr (processing, summary) :: rest ->
  token < served w ->
  promised (s3_bucket, output_key token) body w ->
  promised (s3_bucket, output_key token) body (snd (invoke s3_bucket w)).
Proof.
  intros Hplan Ht (Hd & Hu & Hs). rewrite (invoke_accepted _ _ _ _ Hplan). cbn [snd].
  apply settle_promised. split; [exact Hd|]. split.
  - intros j Hj Htj. cbn [jobs] in Hj. apply in_app_or in Hj.
    destruct Hj as [Hj|[<-|[]]]; [apply Hu; assumption|].
    exfalso. cbn [target] in Htj. apply (f_equal snd) in Htj. cbn [snd] in Htj.
    apply output_key_inj in Htj. lia.
  - destruct Hs as [Hs|(Hs & j & Hj & Htj)]; [left; exact Hs|].
    right. split; [exact Hs|]. exists j. split; [|exact Htj].
    cbn [jobs]. apply in_or_app. left. exact Hj.
Qed.

End Unused.

(** ** The reference parser on the service's locations *)

Lemma split_at_slash_host (host tail : string) :
  no_slash host = true ->
  split_at_slash (host ++ "/" ++ tail) = (host, ("/" ++ tail)%string).
Proof.
  induction host as [|c host IH]; intros H.
  - reflexivity.
  - cbn [no_slash] in H. apply andb_true_iff in H. destruct H as [Hc Hh].
    change (String c host ++ "/" ++ tail)%string
      with (String c (host ++ "/" ++ tail)).
    cbn [split_at_slash]. apply negb_true_iff in Hc. rewrite Hc, (IH Hh).
    reflexivity.
Qed.

Lemma urlparse_parses_outputs (s3_bucket : string) :
  no_slash s3_bucket = true -> parses_outputs urlparse s3_bucket.
Proof.
  intros H token.
  assert (Hloc : output_location s3_bucket token
                 = ("s3://" ++ s3_bucket ++ "/" ++ output_key token)%string).
  { unfold output_location, output_key, S3OutputPath.
    rewrite !append_assoc. reflexivity. }
  rewrite Hloc. unfold urlparse.
  change (split_scheme ("s3://" ++ s3_bucket ++ "/" ++ output_key token))
    with (Some ("s3"%string, (s3_bucket ++ "/" ++ output_key token)%string)).
  cbv beta iota. rewrite (split_at_slash_host _ _ H). split; reflexivity.
Qed.

Lemma urlparse_input_location (s3_bucket : string) :
  no_slash s3_bucket = true ->
  netloc (urlparse (input_s3_location s3_bucket)) = s3_bucket /\
  slice_from_1 (path (urlparse (input_s3_location s3_bucket))) = input_s3_key.
Proof.
  intros H.
  assert (Hloc : input_s3_location s3_bucket
                 = ("s3://" ++ s3_bucket ++ "/" ++ input_s3_key)%string)
    by reflexivity.
  rewrite Hloc. unfold urlparse.
  change (split_scheme ("s3://" ++ s3_bucket ++ "/" ++ input_s3_key))
    with (Some ("s3"%string, (s3_bucket ++ "/" ++ input_s3_key)%string)).
  cbv beta iota. rewrite (split_at_slash_host _ _ H). split; reflexivity.
Qed.

(** ** The upload cell against the storage *)

Section Upload.

Variable s3_bucket : string.

Abbreviation h := (handler s3_bucket).

(** In the reference environment, with a bucket name that holds no
    slash: when data/input.json is on the disk, the upload cell ends
    with what the file holds stored at the very place that
    input_s3_location names, read the way get_output reads a location
    (netloc as bucket, path without its first character as key), and
    with nothing else in the storage changed; a read of that place
    then answers with it, and the last line printed is the
    confirmation.  When the file is missing, the cell raises
    FileNotFoundError and leaves the world as it was. *)
Theorem uploaded_input_is_at_input_location (w : World) :
  let bucket := netloc (urlparse (input_s3_location s3_bucket)) in
  let key := slice_from_1 (path (urlparse (input_s3_location s3_bucket))) in
  no_slash s3_bucket = true ->
  (forall body,
      disk w !! "data/input.json" = Some body ->
      exists w' tr,
        ends h (upload_input s3_bucket) w (Returned tt) w' tr /\
        objects w' = <[(bucket, key) := body]> (objects w) /\
        ((bucket, key) ∉ denied w -> read_answer h bucket key w' = inr body) /\
        last (stdout w') = Some "Uploaded the input data to S3 bucket") /\
  (disk w !! "data/input.json" = None ->
   ends h (upload_input s3_bucket) w
     (Raised (file_not_found "data/input.json")) w
     [ObsOpen "data/input.json" "rb" (inl (file_not_found "data/input.json"))]).
Proof.
  cbn zeta. intros Hb.
  destruct (urlparse_input_location s3_bucket Hb) as [-> ->].
  split.
  - intros body Hfile.
    exists (say "Uploaded the input data to S3 bucket"
              (write (s3_bucket, input_s3_key) body w)).
    eexists. split; [|split; [reflexivity|split]].
    + assert (Hopen : open "data/input.json" w = (inr body, w))
        by (unfold open; rewrite Hfile; reflexivity).
      exists 3, 0. unfold upload_input, call_or_raise.
      rewrite run_bind, run_call_then. cbn [handler]. rewrite !Hopen.
      cbn [fst snd]. rewrite run_ret.
      unfold then_run at 1, after. cbn [status trace world fuel_left observed app].
      rewrite run_bind, run_call_then. cbn [handler fst snd]. rewrite run_ret.
      unfold then_run, after. cbn [status trace world fuel_left observed app].
      rewrite run_call. cbn [handler fst snd observed status trace world fuel_left].
      reflexivity.
    + intros Hok. unfold read_answer. cbn [handler].
      rewrite (CloudFacts.read_present s3_bucket input_s3_key _ body);
        [reflexivity| |exact Hok].
      cbn [objects say write]. apply lookup_insert_eq.
    + cbn [stdout say write]. apply last_snoc.
  - intros Hfile.
    assert (Hopen : open "data/input.json" w
                    = (inl (file_not_found "data/input.json"), w))
      by (unfold open; rewrite Hfile; reflexivity).
    exists 1, 0. unfold upload_input, call_or_raise.
    rewrite run_bind, run_call_then. cbn [handler]. rewrite !Hopen.
    cbn [fst snd]. rewrite run_raise. reflexivity.
Qed.

End Upload.

(** ** The cells against the service *)

Section Workflows.

Variable s3_bucket : string.
Variable endpoint_name : string.
Variable urlparse : string -> ParseResult.
Hypothesis Hparse : parses_outputs urlparse s3_bucket.

Abbreviation h := (handler s3_bucket).
Abbreviation submit := (submit_step s3_bucket endpoint_name).
Abbreviation collect := (collect_step urlparse).

Lemma read_answer_found bucket key w body :
  read_answer h bucket key w = inr body -> objects w !! (bucket, key) = Some body.
Proof.
  unfold read_answer. cbn [handler]. unfold read.
  destruct (bool_decide _); [discriminate|].
  destruct (objects w !! (bucket, key)); [|discriminate].
  cbn. congruence.
Qed.

(** A poll of a promised output ends with its content, in a world
    where waiting was all that happened. *)
Lemma poll_promised token body w :
  promised (s3_bucket, output_key token) body w ->
  exists n,
    ends h (get_output urlparse (output_location s3_bucket token)) w
      (Returned body)
      (after_retries h s3_bucket (output_key token) n w)
      (waiting_trace h s3_bucket (output_key token) n w
         ++ [ObsRead s3_bucket (output_key token) (inr body)]) /\
    objects (after_retries h s3_bucket (output_key token) n w)
      !! (s3_bucket, output_key token) = Some body.
Proof.
  intros Hp.
  destruct (promised_found s3_bucket s3_bucket (output_key token) body w Hp)
    as (n & Hwait & Hfound).
  exists n. split; [|apply read_answer_found; exact Hfound].
  pose proof (poll_ends urlparse World h (output_location s3_bucket token)
                n w body) as Hends.
  destruct (Hparse token) as [Hb Hk]. rewrite Hb, Hk in Hends.
  specialize (Hends Hwait Hfound). cbn [handler] in Hends.
  rewrite CloudFacts.read_keeps_world in Hends. exact Hends.
Qed.

Lemma submit_step_accepted (i : Z) acc w processing summary rest :
  plan w = inr (processing, summary) :: rest ->
  ends h (submit i acc) w
    (Returned (acc ++ [entry_at s3_bucket (served w)]))
    (snd (invoke s3_bucket w))
    [ObsTime (clock w);
     ObsInvoke endpoint_name (input_s3_location s3_bucket) "application/json"
       (fst (invoke s3_bucket w))].
Proof.
  intros Hplan. exists 2, 0. unfold submit_step, call_or_raise.
  rewrite run_call_then, run_bind, run_call_then. cbn [handler fst snd observed].
  rewrite (invoke_accepted s3_bucket w _ _ _ Hplan). cbn [fst snd].
  rewrite run_ret. unfold then_run, after.
  cbn [status trace world fuel_left app]. rewrite run_ret. reflexivity.
Qed.

Lemma submit_loop_accepted (rest : list (exn + Z * string))
  (specs : list (Z * string)) :
  forall (xs : list Z) acc w held,
    length xs = length specs ->
    plan w = map inr specs ++ rest ->
    unused s3_bucket w -> denied w = ∅ -> tracking s3_bucket w held ->
    exists w1 tr,
      ends h (for_each xs submit acc) w
        (Returned (acc ++ map (entry_at s3_bucket)
                            (seq (served w) (length specs)))) w1 tr /\
      plan w1 = rest /\ unused s3_bucket w1 /\ denied w1 = ∅ /\
      tracking s3_bucket w1
        (held ++ combine (seq (served w) (length specs)) (map snd specs)).
Proof.
  induction specs as [|[processing summary] specs IH];
    intros xs acc w held Hlen Hplan Hun Hden Htrack.
  - destruct xs; [|discriminate]. exists w, []. cbn [for_each length seq map combine].
    rewrite !app_nil_r. split; [apply ends_ret|]. auto.
  - destruct xs as [|x xs]; [discriminate|]. cbn [map app] in Hplan.
    pose proof (submit_step_accepted x acc w _ _ _ Hplan) as Hstep.
    destruct (invoke_frame s3_bucket w _ _ _ Hplan) as (Hp1 & Hs1 & Hd1 & _).
    assert (Htrack1 : tracking s3_bucket (snd (invoke s3_bucket w))
                        (held ++ [(served w, summary)])).
    { apply Forall_app. split.
      - eapply Forall_impl; [exact Htrack|]. intros [t body] [Ht Hpr]. cbn [fst snd] in *.
        split; [rewrite Hs1; lia|].
        apply (invoke_keeps_promise s3_bucket w _ _ _ t body Hplan Ht Hpr).
      - constructor; [|constructor]. cbn [fst snd]. split; [rewrite Hs1; lia|].
        apply (invoke_promises s3_bucket w _ _ _ Hplan Hun).
        rewrite Hden. apply not_elem_of_empty. }
    destruct (IH xs (acc ++ [entry_at s3_bucket (served w)])
                (snd (invoke s3_bucket w)) (held ++ [(served w, summary)]))
      as (w1 & tr & Hends & Hp & Hu & Hd & Ht); try assumption.
    { cbn [length] in Hlen. lia. }
    { apply (invoke_unused s3_bucket w _ _ _ Hplan Hun). }
    { rewrite Hd1. exact Hden. }
    exists w1, ([ObsTime (clock w);
                 ObsInvoke endpoint_name (input_s3_location s3_bucket)
                   "application/json" (fst (invoke s3_bucket w))] ++ tr).
    rewrite Hs1 in Hends, Ht. rewrite <- app_assoc in Hends, Ht.
    cbn [for_each length seq map combine app snd].
    split; [|auto].
    exact (ends_bind World h _ _ w _ _
             [ObsTime (clock w);
              ObsInvoke endpoint_name (input_s3_location s3_bucket)
                "application/json" (fst (invoke s3_bucket w))]
             _ _ tr Hstep Hends).
Qed.

Lemma collect_loop_delivers (held : list (nat * string)) :
  forall prev w,
    Forall (fun th => promised (s3_bucket, output_key (fst th)) (snd th) w) held ->
    exists w' tr,
      ends h (for_each (map (fun th => entry_at s3_bucket (fst th)) held)
                collect prev) w
        (Returned (match last (map snd held) with
                   | Some content => Some content
                   | None => prev
                   end)) w' tr /\
      plan w' = plan w /\
      (forall loc body, promised loc body w -> objects w !! loc = Some body ->
                        objects w' !! loc = Some body) /\
      Forall (fun th => objects w' !! (s3_bucket, output_key (fst th))
                        = Some (snd th)) held.
Proof.
  induction held as [|[token body] held IH]; intros prev w Hheld.
  - exists w, []. cbn [map for_each last]. split; [apply ends_ret|]. auto.
  - pose proof (List.Forall_inv Hheld) as Hp. cbn [fst snd] in Hp.
    pose proof (List.Forall_inv_tail Hheld) as Hrest.
    destruct (poll_promised token body w Hp) as (n & Hpoll & Hobj).
    set (w1 := after_retries h s3_bucket (output_key token) n w) in *.
    set (line := report_line (input_s3_location s3_bucket)
                   (output_location s3_bucket token)).
    assert (Hkeep : forall loc b, promised loc b w -> promised loc b (say line w1)).
    { intros loc b Hth. apply say_promised. apply after_retries_promised. exact Hth. }
    assert (Hrest1 : Forall (fun th => promised (s3_bucket, output_key (fst th))
                                         (snd th) (say line w1)) held).
    { eapply Forall_impl; [exact Hrest|]. intros th Hth. apply Hkeep. exact Hth. }
    destruct (IH (Some body) (say line w1) Hrest1)
      as (w' & tr & Hends & Hplan & Hstay & Hall).
    exists w'. eexists. split; [|split; [|split]].
    + cbn [map for_each fst]. eapply ends_bind; [|].
      * unfold entry_at at 1, collect_step. cbv beta iota.
        eapply ends_bind; [exact Hpoll|].
        eapply ends_bind; [apply ends_call|]. apply ends_ret.
      * cbn [handler snd]. fold line.
        cbn [map snd]. rewrite last_cons.
        destruct (last (map snd held)); exact Hends.
    + rewrite Hplan. cbn [say plan].
      apply (after_retries_frame s3_bucket s3_bucket (output_key token) n w).
    + intros loc b Hpr Hs. apply Hstay; [apply Hkeep; exact Hpr|].
      cbn [say objects]. apply after_retries_stored; assumption.
    + constructor; [|exact Hall]. cbn [fst snd].
      apply Hstay; [apply Hkeep; exact Hp | exact Hobj].
Qed.

Lemma combine_seq_fst {A : Type} (l : list A) : forall start,
  map fst (combine (seq start (length l)) l) = seq start (length l) /\
  map snd (combine (seq start (length l)) l) = l.
Proof.
  induction l as [|a l IH]; intros start; [split; reflexivity|].
  cbn [length seq combine map fst snd].
  destruct (IH (S start)) as [-> ->]. split; reflexivity.
Qed.

(** In the reference environment, a batch cell over range(1, n) started
    when the service will accept the next n - 1 invocations, with no
    output name in use and nothing denied, runs to its end: its record
    is the n - 1 output locations the service handed out, in order, its
    output is the summary of the last one, the service has consumed
    exactly those n - 1 acceptances, and every output is stored with its
    summary. *)
Theorem batch_completes_when_service_delivers (n : Z) (w : World)
  (specs : list (Z * string)) (rest : list (exn + Z * string)) :
  plan w = map inr specs ++ rest ->
  length specs = Z.to_nat (n - 1) ->
  unused s3_bucket w -> denied w = ∅ ->
  exists w' tr,
    ends h (batch s3_bucket endpoint_name urlparse n) w
      (Returned (mkBatchVars
                   (map (entry_at s3_bucket) (seq (served w) (length specs)))
                   (last (map snd specs)))) w' tr /\
    plan w' = rest /\
    Forall (fun th => objects w' !! (s3_bucket, output_key (fst th))
                      = Some (snd th))
      (combine (seq (served w) (length specs)) (map snd specs)).
Proof.
  intros Hplan Hlen Hun Hden.
  destruct (submit_loop_accepted rest specs (range 1 n) [] w [])
    as (w1 & tr1 & Hsub & Hp1 & _ & _ & Htrack); try assumption.
  { rewrite range_length. symmetry. exact Hlen. }
  { constructor. }
  cbn [app] in Hsub, Htrack.
  set (held := combine (seq (served w) (length specs)) (map snd specs)) in *.
  assert (Hlen' : length (map snd specs) = length specs) by apply length_map.
  assert (Hfst : map fst held = seq (served w) (length specs)).
  { unfold held. rewrite <- Hlen'. apply combine_seq_fst. }
  assert (Hsnd : map snd held = map snd specs).
  { unfold held. rewrite <- Hlen'. apply combine_seq_fst. }
  assert (Hheld : Forall (fun th => promised (s3_bucket, output_key (fst th))
                                      (snd th) (say batch_header w1)) held).
  { eapply Forall_impl; [exact Htrack|]. intros th [_ Hpr].
    apply say_promised. exact Hpr. }
  destruct (collect_loop_delivers held None (say batch_header w1) Hheld)
    as (w' & tr2 & Hcol & Hp2 & _ & Hall).
  exists w'. eexists. split; [|split; [|exact Hall]].
  - unfold batch. eapply ends_bind; [exact Hsub|].
    eapply ends_bind; [apply ends_call|]. cbn [handler snd].
    eapply ends_bind; [|apply ends_ret].
    rewrite <- Hfst, map_map. rewrite Hsnd in Hcol.
    destruct (last (map snd specs)); exact Hcol.
  - rewrite Hp2. exact Hp1.
Qed.

Variable show_response : InvokeResponse -> string.

(** In the reference environment, the single-request cells, run when
    the service will accept the next invocation and its output name is
    neither in use nor denied, end by returning the summary the service
    wrote for that invocation; the last line printed shows it, and the
    output is stored under the name the service handed out. *)
Theorem single_request_returns_summary (w : World) (processing : Z)
  (summary : string) (rest : list (exn + Z * string)) :
  plan w = inr (processing, summary) :: rest ->
  unused s3_bucket w ->
  (s3_bucket, output_key (served w)) ∉ denied w ->
  exists w' tr,
    ends h (single_request s3_bucket endpoint_name urlparse show_response) w
      (Returned summary) w' tr /\
    retrieved tr = [summary] /\
    last (stdout w') = Some ("Sumarrized text is: " ++ summary)%string /\
    objects w' !! (s3_bucket, output_key (served w)) = Some summary.
Proof.
  intros Hplan Hun Hden.
  set (response := mkInvokeResponse (output_location s3_bucket (served w))
                     (pretty (served w))).
  set (w1 := say ("OutputLocation: " ++ output_location s3_bucket (served w))
               (say (show_response response) (snd (invoke s3_bucket w)))).
  assert (Hp : promised (s3_bucket, output_key (served w)) summary w1).
  { unfold w1. do 2 apply say_promised.
    apply (invoke_promises s3_bucket w _ _ _ Hplan Hun Hden). }
  destruct (poll_promised (served w) summary w1 Hp) as (n & Hpoll & Hobj).
  assert (Hcell : ends h (invoke_cell s3_bucket endpoint_name show_response) w
                    (Returned (output_location s3_bucket (served w))) w1
                    ([ObsInvoke endpoint_name (input_s3_location s3_bucket)
                        "application/json" (inr response)]
                     ++ [ObsPrint (show_response response)]
                     ++ [ObsPrint ("OutputLocation: "
                                   ++ output_location s3_bucket (served w))]
                     ++ [])).
  { assert (Hanswer : fst (invoke s3_bucket w) = inr response).
    { rewrite (invoke_accepted s3_bucket w _ _ _ Hplan). reflexivity. }
    assert (Hinv : ends h (call_or_raise
                             (InvokeEndpointAsync endpoint_name
                                (input_s3_location s3_bucket) "application/json"))
                     w (Returned response) (snd (invoke s3_bucket w))
                     [ObsInvoke endpoint_name (input_s3_location s3_bucket)
                        "application/json" (inr response)]).
    { exists 1, 0. unfold call_or_raise. rewrite run_call_then.
      cbn [handler observed]. rewrite Hanswer, run_ret. reflexivity. }
    unfold invoke_cell. eapply ends_bind; [exact Hinv|].
    eapply ends_bind; [apply ends_call|].
    eapply ends_bind; [apply ends_call|]. apply ends_ret. }
  eexists. eexists. split; [|split; [|split]].
  - unfold single_request. eapply ends_bind; [exact Hcell|].
    unfold show_summary. eapply ends_bind; [exact Hpoll|].
    eapply ends_bind; [apply ends_call|]. apply ends_ret.
  - pose proof (ends_poll_retrieved _ _ _ _ _ _ _ _ Hpoll) as Hr.
    rewrite retrieved_app in Hr. rewrite !retrieved_app.
    cbn [retrieved app] in *. rewrite app_nil_r. exact Hr.
  - cbn [handler snd say stdout]. apply last_snoc.
  - cbn [handler snd say objects]. exact Hobj.
Qed.

End Workflows.

(** ** An empty account *)

Lemma fresh_unused (s3_bucket : string) (plan : list (exn + Z * string)) :
  unused s3_bucket (Demo.fresh plan).
Proof. intros token _. split; [apply lookup_empty | intros j []]. Qed.

(** ** The service that loses requests *)

Section Lossy.

Variable s3_bucket : string.
Variable bucket key : string.

Lemma lossy_after_retries n : forall w,
  after_retries (lossy_handler s3_bucket) bucket key n w
  = after_retries (handler s3_bucket) bucket key n w.
Proof.
  induction n as [|n IH]; intros w; cbn [after_retries]; [reflexivity|].
  rewrite IH. reflexivity.
Qed.

(** Where nothing is stored and nothing queued, the reads of a poll
    never find anything. *)
Lemma lossy_idle_never_found w :
  idle bucket key w ->
  forall i,
    not_found_at (lossy_handler s3_bucket) bucket key
      (after_retries (lossy_handler s3_bucket) bucket key i w) = true.
Proof.
  intros Hidle i. rewrite lossy_after_retries.
  apply (CloudFacts.idle_not_found s3_bucket bucket key).
  apply CloudFacts.after_retries_idle. exact Hidle.
Qed.

End Lossy.

End ServiceFacts.

(* ------------------------------------------------------------------ *)
(** * The further properties on concrete sessions *)

Section MoreSessions.

Import Demo MoreDemo.

Lemma demo_bucket_parses : Service.parses_outputs Cloud.urlparse s3_bucket.
Proof. apply ServiceFacts.urlparse_parses_outputs. reflexivity. Qed.

Lemma get_output_sleeps_between_reads_witness :
  status (run (Cloud.handler s3_bucket) 20
            (get_output Cloud.urlparse first_output) one_pending) <> None /\
  reads (trace (run (Cloud.handler s3_bucket) 20
                  (get_output Cloud.urlparse first_output) one_pending))
  = S (sleeps (trace (run (Cloud.handler s3_bucket) 20
                        (get_output Cloud.urlparse first_output) one_pending))).
Proof.
  assert (H : status (run (Cloud.handler s3_bucket) 20
                        (get_output Cloud.urlparse first_output) one_pending)
              <> None) by (vm_compute; discriminate).
  split; [exact H|].
  exact (proj2 (proj2 (get_output_sleeps_between_reads Cloud.urlparse
                         Cloud.World (Cloud.handler s3_bucket) first_output
                         20 one_pending)) H).
Defined.

Lemma batch_blocks_on_lost_output_witness :
  status lost_submissions
  = Some (Returned (Service.entry_at s3_bucket 0 :: lost_others)) /\
  status (run (Service.lossy_handler s3_bucket) 100
            (batch s3_bucket endpoint_name Cloud.urlparse 10)
            (fresh ten_accepted)) = None.
Proof.
  assert (H0 : status lost_submissions
               = Some (Returned (Service.entry_at s3_bucket 0 :: lost_others)))
    by (vm_compute; reflexivity).
  split; [exact H0|].
  refine (proj1 (batch_blocks_on_lost_output s3_bucket endpoint_name
                   Cloud.urlparse Cloud.World (Service.lossy_handler s3_bucket)
                   10 (fresh ten_accepted) 18
                   (input_s3_location s3_bucket)
                   (Cloud.output_location s3_bucket 0) lost_others H0 _ 100)).
  assert (Hw : snd (Service.lossy_handler s3_bucket (Print batch_header)
                      (world lost_submissions))
               = Cloud.say batch_header (fresh ten_accepted))
    by (vm_compute; reflexivity).
  rewrite Hw.
  apply ServiceFacts.lossy_idle_never_found.
  split; [apply lookup_empty|]. split; [reflexivity|]. apply not_elem_of_empty.
Defined.

Lemma poll_notices_output_within_two_witness :
  (Cloud.clock one_pending < Cloud.due pending_job)%Z /\
  exists n w' tr,
    0 < n /\
    ends (Cloud.handler s3_bucket) (get_output Cloud.urlparse first_output)
      one_pending (Returned (Cloud.payload pending_job)) w' tr /\
    reads tr = S n /\
    Cloud.clock w' = (Cloud.clock one_pending + 2 * Z.of_nat n)%Z /\
    (Cloud.due pending_job <= Cloud.clock w' < Cloud.due pending_job + 2)%Z.
Proof.
  assert (Hlt : (Cloud.clock one_pending < Cloud.due pending_job)%Z)
    by (vm_compute; reflexivity).
  split; [exact Hlt|].
  refine (ServiceFacts.poll_notices_output_within_two s3_bucket Cloud.urlparse
            first_output one_pending pending_job _ _ _ _ _ Hlt).
  - replace (Cloud.denied one_pending) with (∅ : gset (string * string))
      by (vm_compute; reflexivity).
    apply not_elem_of_empty.
  - vm_compute. reflexivity.
  - vm_compute. left. reflexivity.
  - vm_compute. reflexivity.
  - intros j' Hin _. vm_compute in Hin. destruct Hin as [<-|[]]. reflexivity.
Defined.

Lemma single_request_returns_summary_witness :
  Cloud.plan (fresh ten_accepted)
  = inr (6%Z, "summary 0") :: tl ten_accepted /\
  exists w' tr,
    ends (Cloud.handler s3_bucket)
      (single_request s3_bucket endpoint_name Cloud.urlparse show_response)
      (fresh ten_accepted) (Returned "summary 0") w' tr /\
    retrieved tr = ["summary 0"] /\
    last (Cloud.stdout w') = Some ("Sumarrized text is: " ++ "summary 0")%string /\
    Cloud.objects w'
      !! (s3_bucket, Cloud.output_key (Cloud.served (fresh ten_accepted)))
    = Some "summary 0".
Proof.
  split; [reflexivity|].
  refine (ServiceFacts.single_request_returns_summary s3_bucket endpoint_name
            Cloud.urlparse demo_bucket_parses show_response
            (fresh ten_accepted) 6 "summary 0" (tl ten_accepted) eq_refl
            (ServiceFacts.fresh_unused s3_bucket ten_accepted) _).
  apply not_elem_of_empty.
Defined.

Lemma batch_completes_when_service_delivers_witness :
  Cloud.plan (fresh ten_accepted) = map inr nine_specs ++ tenth /\
  exists w' tr,
    ends (Cloud.handler s3_bucket)
      (batch s3_bucket endpoint_name Cloud.urlparse 10) (fresh ten_accepted)
      (Returned (mkBatchVars
                   (map (Service.entry_at s3_bucket)
                      (seq (Cloud.served (fresh ten_accepted)) (length nine_specs)))
                   (last (map snd nine_specs)))) w' tr /\
    Cloud.plan w' = tenth /\
    Forall (fun th => Cloud.objects w' !! (s3_bucket, Cloud.output_key (fst th))
                      = Some (snd th))
      (combine (seq (Cloud.served (fresh ten_accepted)) (length nine_specs))
         (map snd nine_specs)).
Proof.
  split; [reflexivity|].
  exact (ServiceFacts.batch_completes_when_service_delivers s3_bucket
           endpoint_name Cloud.urlparse demo_bucket_parses 10
           (fresh ten_accepted) nine_specs tenth eq_refl eq_refl
           (ServiceFacts.fresh_unused s3_bucket ten_accepted) eq_refl).
Defined.

Lemma uploaded_input_is_at_input_location_witness :
  Service.no_slash s3_bucket = true /\
  Cloud.disk with_input !! "data/input.json"
  = Some "{'inputs': 'text to summarize'}" /\
  exists w' tr,
    ends (Cloud.handler s3_bucket) (upload_input s3_bucket) with_input
      (Returned tt) w' tr /\
    Cloud.objects w'
    = <[(netloc (Cloud.urlparse (input_s3_location s3_bucket)),
         slice_from_1 (path (Cloud.urlparse (input_s3_location s3_bucket))))
        := "{'inputs': 'text to summarize'}"]> (Cloud.objects with_input) /\
    ((netloc (Cloud.urlparse (input_s3_location s3_bucket)),
      slice_from_1 (path (Cloud.urlparse (input_s3_location s3_bucket))))
       ∉ Cloud.denied with_input ->
     read_answer (Cloud.handler s3_bucket)
       (netloc (Cloud.urlparse (input_s3_location s3_bucket)))
       (slice_from_1 (path (Cloud.urlparse (input_s3_location s3_bucket)))) w'
     = inr "{'inputs': 'text to summarize'}") /\
    last (Cloud.stdout w') = Some "Uploaded the input data to S3 bucket".
Proof.
  assert (Hfile : Cloud.disk with_input !! "data/input.json"
                  = Some "{'inputs': 'text to summarize'}")
    by (vm_compute; reflexivity).
  split; [reflexivity|]. split; [exact Hfile|].
  exact (proj1 (ServiceFacts.uploaded_input_is_at_input_location s3_bucket
                  with_input eq_refl)
           "{'inputs': 'text to summarize'}" Hfile).
Defined.

End MoreSessions.
